(** * Theia navigator model and plugin dialog bridge: a shallow embedding

    Sources embedded here:
    - [packages/navigator/src/browser/navigator-model.ts]
      (class [FileNavigatorModel]);
    - [packages/plugin-ext/src/main/browser/dialogs-main.ts]
      (class [DialogsMainImpl]).

    Both classes are orchestration layers over injected services (workspace
    service, file system, label provider, dialog factory, the generic tree
    model).  Those services are not part of the embedded sources, so they
    appear as interfaces (type classes) whose operations act on an abstract
    world [W]; every statement below is proved for all implementations, and
    small concrete implementations are given to evaluate the code.  Each
    method is run from its first statement to its last: what other event
    handlers may do to the world while a method waits at an [await] is not
    part of the model. *)

From Stdlib Require Import String Ascii List Arith Lia Bool.
From stdpp Require Import base option list strings gmap.

Local Open Scope string_scope.
Local Open Scope list_scope.

(** ** Asynchronous computations

    An [async] function is a state transformer that ends in one of three
    ways: its promise resolves, it rejects, or it never settles.  The last
    case only arises from unbounded recursion of the embedded code itself;
    calls into injected services always settle ([settled]). *)
Module Async.

(** JavaScript exception values: [new Error(message)]. *)
Inductive JsError : Type :=
| Error (message : string).

Inductive settled (A : Type) : Type :=
| Fulfilled (a : A)
| Failed (e : JsError).

Inductive outcome (A : Type) : Type :=
| Resolved (a : A)
| Rejected (e : JsError)
| Pending.

Arguments Fulfilled {A} a.
Arguments Failed {A} e.
Arguments Resolved {A} a.
Arguments Rejected {A} e.
Arguments Pending {A}.

Definition Promise (S A : Type) : Type := S -> outcome A * S.

Definition ret {S A} (a : A) : Promise S A := fun s => (Resolved a, s).

Definition throw {S A} (e : JsError) : Promise S A := fun s => (Rejected e, s).

Definition never {S A} : Promise S A := fun s => (Pending, s).

Definition bind {S A B} (m : Promise S A) (k : A -> Promise S B) : Promise S B :=
  fun s =>
    match m s with
    | (Resolved a, s') => k a s'
    | (Rejected e, s') => (Rejected e, s')
    | (Pending, s') => (Pending, s')
    end.

(** [try { body } catch (error) { handler }]. *)
Definition try_catch {S A} (body : Promise S A) (handler : JsError -> Promise S A)
  : Promise S A :=
  fun s =>
    match body s with
    | (Rejected e, s') => handler e s'
    | r => r
    end.

Definition of_settled {A} (r : settled A) : outcome A :=
  match r with
  | Fulfilled a => Resolved a
  | Failed e => Rejected e
  end.

Definition is_pending {A} (o : outcome A) : bool :=
  match o with Pending => true | _ => false end.

End Async.

Import Async.

Declare Scope promise_scope.
Delimit Scope promise_scope with promise.
Notation "x <- m ;; k" := (bind m (fun x => k))
  (at level 100, m at next level, right associativity) : promise_scope.
Notation "m ;;; k" := (bind m (fun _ => k))
  (at level 100, right associativity) : promise_scope.

(** ** The dialog bridge ([dialogs-main.ts]) *)
Module Dialogs.

(** [OpenDialogOptionsMain]: every field is optional. *)
Record OpenDialogOptionsMain : Type := {
  defaultUri : option string;
  openLabel : option string;
  canSelectFiles : option bool;
  canSelectFolders : option bool;
  canSelectMany : option bool;
  filters : option (list (string * list string))
}.

(** The object literal cast to [FileDialogProps] at lines 100-107. *)
Record FileDialogProps : Type := {
  props_title : string;
  props_openLabel : option string;
  props_canSelectFiles : option bool;
  props_canSelectFolders : option bool;
  props_canSelectMany : option bool;
  props_filters : option (list (string * list string))
}.

(** State seen by [$showOpenDialog]: the injected services' world and the
    browser console. *)
Record St (W : Type) : Type := {
  world : W;
  console : list JsError
}.
Arguments world {W} _.
Arguments console {W} _.

(** The services injected in the constructor, with the static helpers the
    method calls.  Asynchronous and throwing calls return a [settled]
    result together with the new world. *)
Class Services (W FileStat URI RootNode Dialog Selection : Type) : Type := {
  (* this.fileSystem *)
  getFileStat : string -> W -> settled (option FileStat) * W;
  getCurrentUserHome : W -> settled (option FileStat) * W;
  (* this.workspaceService.roots *)
  roots : W -> settled (list FileStat) * W;
  (* rootStat.uri and new URI(...) *)
  stat_uri : FileStat -> string;
  new_URI : string -> URI;
  (* this.labelProvider *)
  getName : URI -> W -> settled string * W;
  getIcon : URI -> W -> settled string * W;
  (* DirNode.createRoot *)
  DirNode_createRoot : FileStat -> string -> string -> RootNode;
  (* this.fileDialogFactory, dialog.model.navigateTo (called, not awaited:
     only what it throws while being called reaches the catch), dialog.open *)
  fileDialogFactory : FileDialogProps -> W -> settled Dialog * W;
  navigateTo : Dialog -> RootNode -> W -> settled unit * W;
  open : Dialog -> W -> settled (option Selection) * W;
  (* UriSelection.getUris and uri.path.toString() *)
  getUris : option Selection -> list URI;
  path_toString : URI -> string
}.

Section Bridge.
Context {W FileStat URI RootNode Dialog Selection : Type}.
Context `{!Services W FileStat URI RootNode Dialog Selection}.

Local Open Scope promise_scope.

(** A call into a service, awaited where the source awaits it: the call
    returns or throws, and the world moves on. *)
Definition call {A} (service : W -> settled A * W) : Promise (St W) A :=
  fun st =>
    let (r, w') := service (world st) in
    (of_settled r, {| world := w'; console := console st |}).

(** [console.log(error)]. *)
Definition console_log (e : JsError) : Promise (St W) unit :=
  fun st => (Resolved tt, {| world := world st; console := console st ++ [e] |}).

(** Truthiness of an optional string: [undefined] and [''] are falsy. *)
Definition truthy_string (s : option string) : option string :=
  match s with
  | Some s => if String.eqb s "" then None else Some s
  | None => None
  end.

(** Truthiness of an optional boolean. *)
Definition truthy_bool (b : option bool) : bool := default false b.

(** [typeof x === 'boolean' ? x : true]. *)
Definition boolean_or_true (b : option bool) : bool := default true b.

(** Lines 84-97: the dialog title. *)
Definition dialogTitle (options : OpenDialogOptionsMain) : string :=
  let canSelectFiles := boolean_or_true (canSelectFiles options) in
  let canSelectFolders := boolean_or_true (canSelectFolders options) in
  if canSelectFiles && canSelectFolders then "Open"
  else
    let title := if canSelectFiles then "Open File" else "Open Folder" in
    if truthy_bool (canSelectMany options) then title +:+ "(s)" else title.

(** Lines 99-107. *)
Definition dialogProps (options : OpenDialogOptionsMain) : FileDialogProps :=
  {| props_title := dialogTitle options;
     props_openLabel := openLabel options;
     props_canSelectFiles := canSelectFiles options;
     props_canSelectFolders := canSelectFolders options;
     props_canSelectMany := canSelectMany options;
     props_filters := filters options |}.

(** Lines 79-120: the [try] block, its [catch] and the final
    [return undefined]. *)
Definition openDialog (options : OpenDialogOptionsMain) (rootNode : RootNode)
  : Promise (St W) (option (list string)) :=
  try_catch
    (dialog <- call (fileDialogFactory (dialogProps options)) ;;
     call (navigateTo dialog rootNode) ;;;
     result <- call (open dialog) ;;
     ret (Some (map path_toString (getUris result))))
    (fun error => console_log error ;;; ret None).

(** Lines 73-120: everything after a root stat has been found. *)
Definition showOpenDialogAt (options : OpenDialogOptionsMain) (rootStat : FileStat)
  : Promise (St W) (option (list string)) :=
  let rootUri := new_URI (stat_uri rootStat) in
  name <- call (getName rootUri) ;;
  icon <- call (getIcon rootUri) ;;
  let rootNode := DirNode_createRoot rootStat name icon in
  openDialog options rootNode.

(** Lines 51-71: the three attempts to find a root stat, and the throw. *)
Definition resolveRootStat (options : OpenDialogOptionsMain)
  : Promise (St W) FileStat :=
  rootStat <- match truthy_string (defaultUri options) with
              | Some uri => call (getFileStat uri)
              | None => ret None
              end ;;
  rootStat <- match rootStat with
              | Some _ => ret rootStat
              | None => rs <- call roots ;; ret (head rs)
              end ;;
  rootStat <- match rootStat with
              | Some _ => ret rootStat
              | None => call getCurrentUserHome
              end ;;
  match rootStat with
  | Some rootStat => ret rootStat
  | None => throw (Error "Unable to find the rootStat")
  end.

(** [$showOpenDialog(options)]. *)
Definition showOpenDialog (options : OpenDialogOptionsMain)
  : Promise (St W) (option (list string)) :=
  rootStat <- resolveRootStat options ;;
  showOpenDialogAt options rootStat.

(** The state after the services moved the world to [w]. *)
Definition with_world (st : St W) (w : W) : St W :=
  {| world := w; console := console st |}.

(** The precedence as the specification words it, first match wins:
    (1) the stat of the caller's default URI, if given; (2) else the first
    workspace root; (3) else the user's home; failing all three, an error.
    [DefaultSkipped options w w1]: step (1) yields no stat and leaves the
    world at [w1]. *)
Inductive DefaultSkipped (options : OpenDialogOptionsMain) (w : W) : W -> Prop :=
| default_not_given :
    truthy_string (defaultUri options) = None ->
    DefaultSkipped options w w
| default_without_stat uri w1 :
    truthy_string (defaultUri options) = Some uri ->
    getFileStat uri w = (Fulfilled None, w1) ->
    DefaultSkipped options w w1.

Inductive RootChoice (options : OpenDialogOptionsMain) (w : W)
  : settled FileStat -> W -> Prop :=
| choose_default uri rootStat w1 :
    truthy_string (defaultUri options) = Some uri ->
    getFileStat uri w = (Fulfilled (Some rootStat), w1) ->
    RootChoice options w (Fulfilled rootStat) w1
| choose_workspace_root w1 rootStat others w2 :
    DefaultSkipped options w w1 ->
    roots w1 = (Fulfilled (rootStat :: others), w2) ->
    RootChoice options w (Fulfilled rootStat) w2
| choose_home w1 w2 rootStat w3 :
    DefaultSkipped options w w1 ->
    roots w1 = (Fulfilled [], w2) ->
    getCurrentUserHome w2 = (Fulfilled (Some rootStat), w3) ->
    RootChoice options w (Fulfilled rootStat) w3
| choose_nothing w1 w2 w3 :
    DefaultSkipped options w w1 ->
    roots w1 = (Fulfilled [], w2) ->
    getCurrentUserHome w2 = (Fulfilled None, w3) ->
    RootChoice options w (Failed (Error "Unable to find the rootStat")) w3.

(** What the [try] block can do: it resolves, either with [undefined]
    after logging one error, or with the paths of the dialog's result. *)
Definition TryBlockResult (options : OpenDialogOptionsMain) (rootNode : RootNode)
  (st0 : St W) (r : option (list string)) (st1 : St W) : Prop :=
  match r with
  | None => exists e, console st1 = console st0 ++ [e]
  | Some paths =>
      console st1 = console st0 /\
      exists dialog w1 w2 result,
        fileDialogFactory (dialogProps options) (world st0) = (Fulfilled dialog, w1) /\
        navigateTo dialog rootNode w1 = (Fulfilled tt, w2) /\
        open dialog w2 = (Fulfilled result, world st1) /\
        paths = map path_toString (getUris result)
  end.

End Bridge.

End Dialogs.


(** ** URIs *)
Module Uri.

(** Modelled from the spec: the [URI] class ([@theia/core/lib/common/uri])
    is not among the embedded sources.  The navigator uses [uri.scheme],
    [uri.toString()], [uri.path.isRoot] and [uri.parent]; the spec states
    that chains of parents are acyclic by construction.  [segments] is the
    number of path segments below the filesystem root. *)
Class UriApi (URI : Type) : Type := {
  scheme : URI -> string;
  toString : URI -> string;
  isRoot : URI -> bool;
  parent : URI -> URI;
  segments : URI -> nat
}.

(** The spec's assumption on parents: away from the filesystem root, the
    parent has strictly fewer path segments. *)
Class UriLaws (URI : Type) `{!UriApi URI} : Prop :=
  parent_shortens : forall u : URI, isRoot u = false -> (segments (parent u) < segments u)%nat.

(** [uri.parent] applied [k] times. *)
Fixpoint ancestor {URI} `{!UriApi URI} (k : nat) (u : URI) : URI :=
  match k with
  | 0 => u
  | S k => ancestor k (parent u)
  end.

(** Modelled from the spec: a URI with an absolute path, kept as its list
    of segments from the filesystem root downwards. *)
Record PathUri : Type := {
  pu_scheme : string;
  pu_path : list string
}.

Definition pu_toString (u : PathUri) : string :=
  pu_scheme u +:+ "://" +:+
  match pu_path u with
  | [] => "/"
  | segs => String.concat "" (map (fun seg => "/" +:+ seg) segs)
  end.

Definition pu_isRoot (u : PathUri) : bool :=
  match pu_path u with
  | [] => true
  | _ :: _ => false
  end.

Definition pu_parent (u : PathUri) : PathUri :=
  {| pu_scheme := pu_scheme u; pu_path := removelast (pu_path u) |}.

#[export] Instance pathUriApi : UriApi PathUri := {
  scheme := pu_scheme;
  toString := pu_toString;
  isRoot := pu_isRoot;
  parent := pu_parent;
  segments := fun u => length (pu_path u)
}.

End Uri.

Import Uri.

(** ** The navigator model ([navigator-model.ts]) *)
Module Navigator.

(** Modelled from the spec: [FileChangeType], the kind of a filesystem
    change (created / updated / deleted); its declaration is not among the
    embedded sources. *)
Inductive FileChangeType : Type :=
| UPDATED
| CREATED
| DELETED.

Definition is_UPDATED (t : FileChangeType) : bool :=
  match t with UPDATED => true | _ => false end.

(** [FileChange]: the changed URI and the kind of change. *)
Record FileChange (URI : Type) : Type := {
  change_uri : URI;
  change_type : FileChangeType
}.
Arguments change_uri {URI} _.
Arguments change_type {URI} _.

(** Modelled from the spec: [WorkspaceNode], the synthetic root that owns
    the ordered sequence of workspace-root children.  [WorkspaceNode.createRoot]
    ([navigator-tree.ts]) is not among the embedded sources. *)
Record WorkspaceNode (C : Type) : Type := {
  children : list C
}.
Arguments children {C} _.

Definition WorkspaceNode_createRoot {C} (children : list C) : WorkspaceNode C :=
  {| children := children |}.

(** [workspaceNode.children = children]. *)
Definition set_children {C} (workspaceNode : WorkspaceNode C) (children : list C)
  : WorkspaceNode C :=
  {| children := children |}.

(** [this.workspaceService]: [roots] (awaited) and [tryGetRoots()]; a root
    is a file stat, of which the model reads [uri]. *)
Class WorkspaceService (W FileStat : Type) : Type := {
  stat_uri : FileStat -> string;
  roots : W -> list FileStat;
  tryGetRoots : W -> list FileStat
}.

(** The generic tree model the class extends, and the static type guards.
    A [Node] is a reference to a tree node object; mutable fields are read
    in the current world. *)
Class TreeModel (W Node : Type) : Type := {
  getNode : W -> string -> option Node;
  node_id : Node -> string;
  node_parent : W -> Node -> option Node;
  node_expanded : W -> Node -> bool;
  WorkspaceRootNode_is : W -> Node -> bool;
  WorkspaceRootNode_createId : string -> string -> string;
  ExpandableTreeNode_is : W -> Node -> bool;
  DirNode_is : W -> Node -> bool;
  FileNode_is : W -> Node -> bool;
  expandNode : Node -> W -> settled unit * W;
  super_move : Node -> Node -> W -> settled unit * W
}.

(** [this.tree.createWorkspaceRoot(root, workspaceNode)]; [C] is the type
    [WorkspaceRootNode] of its results. *)
Class NavigatorTree (W FileStat C : Type) : Type := {
  createWorkspaceRoot : FileStat -> WorkspaceNode C -> W -> settled C * W
}.

(** Calls that leave the class, in the order they are made. *)
Inductive Call (Node : Type) : Type :=
| CallExpandNode (node : Node)
| CallSuperMove (source target : Node).
Arguments CallExpandNode {Node} node.
Arguments CallSuperMove {Node} source target.

(** State of the model: the services' world, the tree root held by the
    model ([this.root]) and the log of outgoing calls. *)
Record St (W Node C : Type) : Type := {
  world : W;
  root : option (WorkspaceNode C);
  calls : list (Call Node)
}.
Arguments world {W Node C} _.
Arguments root {W Node C} _.
Arguments calls {W Node C} _.

Section Model.
Context {W FileStat Node C URI : Type}.
Context `{!WorkspaceService W FileStat, !TreeModel W Node,
          !NavigatorTree W FileStat C, !UriApi URI}.

Local Open Scope promise_scope.

Abbreviation State := (St W Node C).

(** Reading the world. *)
Definition read {A} (f : W -> A) : Promise State A :=
  fun st => (Resolved (f (world st)), st).

(** A call into a service that is not logged. *)
Definition await {A} (call : W -> settled A * W) : Promise State A :=
  fun st =>
    let (r, w') := call (world st) in
    (of_settled r, {| world := w'; root := root st; calls := calls st |}).

(** A logged call into the tree model. *)
Definition invoke {A} (c : Call Node) (call : W -> settled A * W) : Promise State A :=
  fun st =>
    let (r, w') := call (world st) in
    (of_settled r, {| world := w'; root := root st; calls := calls st ++ [c] |}).

(** [this.root = r]. *)
Definition set_root (r : option (WorkspaceNode C)) : Promise State unit :=
  fun st => (Resolved tt, {| world := world st; root := r; calls := calls st |}).

(** A type guard applied to a possibly undefined node. *)
Definition is_a (guard : W -> Node -> bool) (w : W) (node : option Node) : bool :=
  match node with
  | Some n => guard w n
  | None => false
  end.

(** Lines 61-63: the loop filling [children]. *)
Fixpoint createChildren (roots : list FileStat) (workspaceNode : WorkspaceNode C)
  : Promise State (list C) :=
  match roots with
  | [] => ret []
  | root :: rest =>
      child <- await (createWorkspaceRoot root workspaceNode) ;;
      children <- createChildren rest workspaceNode ;;
      ret (child :: children)
  end.

(** [createRoot()], lines 56-67. *)
Definition createRoot : Promise State (option (WorkspaceNode C)) :=
  roots <- read roots ;;
  if (0 <? length roots)%nat then
    let workspaceNode := WorkspaceNode_createRoot [] in
    children <- createChildren roots workspaceNode ;;
    let workspaceNode := set_children workspaceNode children in
    ret (Some workspaceNode)
  else ret None.

(** [updateRoot()], lines 52-54. *)
Definition updateRoot : Promise State unit :=
  r <- createRoot ;;
  set_root r.

(** [move(source, target)], lines 72-78. *)
Definition move (source target : Node) : Promise State unit :=
  w <- read (fun w => w) ;;
  if bool_decide (is_Some (node_parent w source)) && WorkspaceRootNode_is w source
  then ret tt
  else invoke (CallSuperMove source target) (super_move source target).

(** [getNodesByUri(nodeUri)], lines 185-195. *)
Definition getNodesByUri (w : W) (nodeUri : string) : list Node :=
  omap (fun node => node)
    (map (fun parentNodeId => getNode w parentNodeId)
       (map (fun root => WorkspaceRootNode_createId (stat_uri root) nodeUri) (roots w))).

(** [node.id.length]. *)
Definition idlen (node : Node) : nat := String.length (node_id node).

(** The reducer of lines 130-132. *)
Definition closer (node1 node2 : Node) : Node :=
  if (idlen node2 <=? idlen node1)%nat then node1 else node2.

(** [getNodeClosestToRootByUri(uri)], lines 127-134. *)
Definition getNodeClosestToRootByUri (w : W) (uri : string) : option Node :=
  match getNodesByUri w uri with
  | [] => None
  | node :: nodes => Some (fold_left closer nodes node)
  end.

(** [if (!node.expanded) await this.expandNode(node)]. *)
Definition expandIfCollapsed (node : Node) : Promise State unit :=
  w <- read (fun w => w) ;;
  if negb (node_expanded w node)
  then invoke (CallExpandNode node) (expandNode node)
  else ret tt.

(** Lines 115-122: what [revealFile] does once the parent is revealed. *)
Definition revealAfterParent (navigatorNodeId : string) (node : option Node)
  : Promise State (option Node) :=
  node <- match node with
          | None =>
              (* get node if it wasn't mounted into navigator tree before expansion *)
              read (fun w => getNodeClosestToRootByUri w navigatorNodeId)
          | Some _ => ret node
          end ;;
  match node with
  | Some n =>
      w <- read (fun w => w) ;;
      (if ExpandableTreeNode_is w n then expandIfCollapsed n else ret tt) ;;;
      ret (Some n)
  | None => ret None
  end.

(** Lines 107-124: the fail stop condition and the recursive step, with the
    recursive call [this.revealFile] taken as the parameter [revealFile]. *)
Definition revealBelow (revealFile : URI -> Promise State (option Node))
  (targetFileUri : URI) (node : option Node) : Promise State (option Node) :=
  if isRoot targetFileUri then ret None
  else
    revealed <- revealFile (parent targetFileUri) ;;
    match revealed with
    | Some _ => revealAfterParent (toString targetFileUri) node
    | None => ret None
    end.

(** [revealFile(targetFileUri)], lines 86-125. *)
Definition revealFile_body (revealFile : URI -> Promise State (option Node))
  (targetFileUri : URI) : Promise State (option Node) :=
  if negb (String.eqb (scheme targetFileUri) "file") then ret None
  else
    let navigatorNodeId := toString targetFileUri in
    node <- read (fun w => getNodeClosestToRootByUri w navigatorNodeId) ;;
    w <- read (fun w => w) ;;
    match node with
    | Some n =>
        (* success stop condition *)
        if WorkspaceRootNode_is w n then
          if ExpandableTreeNode_is w n then
            expandIfCollapsed n ;;; ret (Some n)
          else ret None
        else revealBelow revealFile targetFileUri node
    | None => revealBelow revealFile targetFileUri node
    end.

(** The recursion, cut after [fuel] nested calls: the promise of a call
    that would go deeper stays pending. *)
Fixpoint revealFile_fuel (fuel : nat) : URI -> Promise State (option Node) :=
  match fuel with
  | 0 => fun _ => never
  | S fuel => revealFile_body (revealFile_fuel fuel)
  end.

(** [revealFile]: the recursion started with one unit of fuel per path
    segment, plus one for the call itself. *)
Definition revealFile (targetFileUri : URI) : Promise State (option Node) :=
  revealFile_fuel (S (segments targetFileUri)) targetFileUri.

(** The outcome of [revealFile] that the claims on already revealed paths
    speak of.  [Revealed w u n]: [n] is the node of the file URI [u], and
    from the workspace root down to [n] every node on the way is mounted
    and, when expandable, expanded. *)
Inductive Revealed (w : W) : URI -> Node -> Prop :=
| revealed_root u n :
    scheme u = "file" ->
    getNodeClosestToRootByUri w (toString u) = Some n ->
    WorkspaceRootNode_is w n = true ->
    ExpandableTreeNode_is w n = true ->
    node_expanded w n = true ->
    Revealed w u n
| revealed_below u n m :
    scheme u = "file" ->
    getNodeClosestToRootByUri w (toString u) = Some n ->
    WorkspaceRootNode_is w n = false ->
    isRoot u = false ->
    Revealed w (parent u) m ->
    (ExpandableTreeNode_is w n = true -> node_expanded w n = true) ->
    Revealed w u n.

(** [AncestorsRevealed w u n]: [n] is the mounted node of the file URI [u]
    and every ancestor directory of [u] up to the workspace root is mounted
    and expanded; nothing is asked of [n] itself. *)
Definition AncestorsRevealed (w : W) (u : URI) (n : Node) : Prop :=
  scheme u = "file" /\
  getNodeClosestToRootByUri w (toString u) = Some n /\
  WorkspaceRootNode_is w n = false /\
  isRoot u = false /\
  exists m, Revealed w (parent u) m.

(** [CreatesChildren workspaceNode w roots children w']: the calls
    [createWorkspaceRoot(root, workspaceNode)], made for the roots in order
    from the world [w], fulfil with [children] and leave the world [w']. *)
Inductive CreatesChildren (workspaceNode : WorkspaceNode C)
  : W -> list FileStat -> list C -> W -> Prop :=
| creates_none w : CreatesChildren workspaceNode w [] [] w
| creates_next w root child w1 rest children w' :
    createWorkspaceRoot root workspaceNode w = (Fulfilled child, w1) ->
    CreatesChildren workspaceNode w1 rest children w' ->
    CreatesChildren workspaceNode w (root :: rest) (child :: children) w'.

(** [isFileContentChanged(change)], lines 175-183. *)
Definition isFileContentChanged (w : W) (change : FileChange URI) : bool :=
  match tryGetRoots w with
  | [] => false
  | root0 :: _ =>
      let nodeId := WorkspaceRootNode_createId (stat_uri root0) (toString (change_uri change)) in
      let node := getNode w nodeId in
      is_UPDATED (change_type change) && is_a FileNode_is w node
  end.

(** [collectAffectedNodes(change, accept)], lines 164-173.  The callback
    acts on the caller's accumulator [A]; the result is the accumulator
    after all its invocations. *)
Definition collectAffectedNodes {A} (change : FileChange URI) (accept : Node -> A -> A)
  (w : W) (acc : A) : A :=
  if isFileContentChanged w change then acc
  else
    fold_left
      (fun acc parentNode =>
         if DirNode_is w parentNode && node_expanded w parentNode
         then accept parentNode acc else acc)
      (getNodesByUri w (toString (parent (change_uri change))))
      acc.

End Model.

End Navigator.


(** ** Small implementations of the services

    They are used to run the embedded code on concrete inputs. *)
Module Toy.

Import Navigator.

(** *** A tree store keyed by node id *)

Inductive Kind : Type :=
| KWorkspace
| KDir
| KFile.

Definition Kind_eqb (k1 k2 : Kind) : bool :=
  match k1, k2 with
  | KWorkspace, KWorkspace | KDir, KDir | KFile, KFile => true
  | _, _ => false
  end.

Record ToyNode : Type := {
  tn_kind : Kind;
  tn_parent : option string;
  tn_expanded : bool
}.

(** [mounted]: the nodes present in the tree, by id; [listing]: the children
    a directory node receives when it is expanded; [toy_roots]: the URIs of
    the workspace roots, in provider order. *)
Record ToyWorld : Type := {
  mounted : gmap string ToyNode;
  listing : gmap string (list (string * ToyNode));
  toy_roots : list string
}.

Definition toy_getNode (w : ToyWorld) (id : string) : option string :=
  match mounted w !! id with
  | Some _ => Some id
  | None => None
  end.

Definition toy_parent (w : ToyWorld) (n : string) : option string :=
  match mounted w !! n with
  | Some d => tn_parent d
  | None => None
  end.

Definition toy_expanded (w : ToyWorld) (n : string) : bool :=
  match mounted w !! n with
  | Some d => tn_expanded d
  | None => false
  end.

Definition toy_kind_is (k : Kind) (w : ToyWorld) (n : string) : bool :=
  match mounted w !! n with
  | Some d => Kind_eqb (tn_kind d) k
  | None => false
  end.

(** A workspace root node is a directory node whose parent is the
    workspace node. *)
Definition toy_isWorkspaceRoot (w : ToyWorld) (n : string) : bool :=
  toy_kind_is KDir w n &&
  match toy_parent w n with
  | Some p => toy_kind_is KWorkspace w p
  | None => false
  end.

Definition toy_createId (rootUri nodeUri : string) : string :=
  rootUri +:+ ":" +:+ nodeUri.

Definition set_expanded (d : ToyNode) : ToyNode :=
  {| tn_kind := tn_kind d; tn_parent := tn_parent d; tn_expanded := true |}.

(** Expanding a node marks it expanded and mounts its listed children. *)
Definition toy_expandNode (n : string) (w : ToyWorld) : settled unit * ToyWorld :=
  (Fulfilled tt,
   {| mounted :=
        foldr (fun kv m => <[kv.1 := kv.2]> m)
          (alter set_expanded n (mounted w))
          (default [] (listing w !! n));
      listing := listing w;
      toy_roots := toy_roots w |}).

Definition set_parent (p : string) (d : ToyNode) : ToyNode :=
  {| tn_kind := tn_kind d; tn_parent := Some p; tn_expanded := tn_expanded d |}.

Definition toy_move (source target : string) (w : ToyWorld) : settled unit * ToyWorld :=
  (Fulfilled tt,
   {| mounted := alter (set_parent target) source (mounted w);
      listing := listing w;
      toy_roots := toy_roots w |}).

#[export] Instance toyWorkspace : WorkspaceService ToyWorld string := {
  stat_uri := fun stat => stat;
  roots := toy_roots;
  tryGetRoots := toy_roots
}.

#[export] Instance toyTree : TreeModel ToyWorld string := {
  getNode := toy_getNode;
  node_id := fun n => n;
  node_parent := toy_parent;
  node_expanded := toy_expanded;
  WorkspaceRootNode_is := toy_isWorkspaceRoot;
  WorkspaceRootNode_createId := toy_createId;
  ExpandableTreeNode_is := toy_kind_is KDir;
  DirNode_is := toy_kind_is KDir;
  FileNode_is := toy_kind_is KFile;
  expandNode := toy_expandNode;
  super_move := toy_move
}.

#[export] Instance toyNavigatorTree : NavigatorTree ToyWorld string string := {
  createWorkspaceRoot := fun rootStat _ w => (Fulfilled (toy_createId rootStat rootStat), w)
}.

Abbreviation ToyState := (Navigator.St ToyWorld string string).

Definition start (w : ToyWorld) : ToyState :=
  {| Navigator.world := w; root := None; calls := [] |}.

Definition file_uri (path : list string) : PathUri :=
  {| pu_scheme := "file"; pu_path := path |}.

Definition workspaceNode : ToyNode :=
  {| tn_kind := KWorkspace; tn_parent := None; tn_expanded := false |}.

Definition dirNode (parent : string) (expanded : bool) : ToyNode :=
  {| tn_kind := KDir; tn_parent := Some parent; tn_expanded := expanded |}.

Definition fileNode (parent : string) : ToyNode :=
  {| tn_kind := KFile; tn_parent := Some parent; tn_expanded := false |}.

(** One workspace root [file:///ws], expanded, holding a collapsed
    directory [a] (with a file [a/x.txt] not yet mounted) and a file
    [f.txt]. *)
Definition ws_id : string := "file:///ws:file:///ws".
Definition ws_a_id : string := "file:///ws:file:///ws/a".
Definition ws_f_id : string := "file:///ws:file:///ws/f.txt".
Definition ws_a_x_id : string := "file:///ws:file:///ws/a/x.txt".

Definition oneRoot : ToyWorld :=
  {| mounted :=
       <[ "WorkspaceNode" := workspaceNode ]>
       (<[ ws_id := dirNode "WorkspaceNode" true ]>
       (<[ ws_a_id := dirNode ws_id false ]>
       (<[ ws_f_id := fileNode ws_id ]> ∅)));
     listing := <[ ws_a_id := [(ws_a_x_id, fileNode ws_a_id)] ]> ∅;
     toy_roots := ["file:///ws"] |}.

(** Two workspace roots [file:///a] and [file:///b], both expanded; the
    second holds the file [f.txt]. *)
Definition root_a_id : string := "file:///a:file:///a".
Definition root_b_id : string := "file:///b:file:///b".
Definition b_f_id : string := "file:///b:file:///b/f.txt".

Definition twoRoots : ToyWorld :=
  {| mounted :=
       <[ "WorkspaceNode" := workspaceNode ]>
       (<[ root_a_id := dirNode "WorkspaceNode" true ]>
       (<[ root_b_id := dirNode "WorkspaceNode" true ]>
       (<[ b_f_id := fileNode root_b_id ]> ∅)));
     listing := ∅;
     toy_roots := ["file:///a"; "file:///b"] |}.

(** No workspace root at all. *)
Definition noRoots : ToyWorld :=
  {| mounted := ∅; listing := ∅; toy_roots := [] |}.

(** Two overlapping workspace roots, [file:///ws] and [file:///ws/a]: the
    directory [a] is mounted twice, as a child of the first root and as the
    second root itself. *)
Definition nested_a_id : string := "file:///ws/a:file:///ws/a".

Definition nestedRoots : ToyWorld :=
  {| mounted :=
       <[ "WorkspaceNode" := workspaceNode ]>
       (<[ ws_id := dirNode "WorkspaceNode" true ]>
       (<[ ws_a_id := dirNode ws_id false ]>
       (<[ nested_a_id := dirNode "WorkspaceNode" false ]> ∅)));
     listing := ∅;
     toy_roots := ["file:///ws"; "file:///ws/a"] |}.

(** URIs and changes used below. *)
Definition outside_uri : PathUri := file_uri ["other"; "f.txt"].
Definition ws_a_uri : PathUri := file_uri ["ws"; "a"].
Definition ws_f_uri : PathUri := file_uri ["ws"; "f.txt"].
Definition http_uri : PathUri := {| pu_scheme := "http"; pu_path := ["ws"; "a"] |}.
Definition b_f_updated : FileChange PathUri :=
  {| change_uri := file_uri ["b"; "f.txt"]; change_type := UPDATED |}.

(** *** Services for the dialog bridge *)

(** [dw_stats]: the URIs the file system can stat; [dw_roots]: the
    workspace roots; [dw_home]: the user's home, if any; [dw_pick]: how the
    dialog ends; [dw_shown]: the root nodes the dialogs navigated to. *)
Record Desk : Type := {
  dw_stats : list string;
  dw_roots : list string;
  dw_home : option string;
  dw_pick : settled (option (list string));
  dw_shown : list (string * string * string)
}.

Definition desk_navigateTo (rootNode : string * string * string) (w : Desk)
  : settled unit * Desk :=
  (Fulfilled tt,
   {| dw_stats := dw_stats w; dw_roots := dw_roots w; dw_home := dw_home w;
      dw_pick := dw_pick w; dw_shown := dw_shown w ++ [rootNode] |}).

#[export] Instance deskServices
  : Dialogs.Services Desk string string (string * string * string)
      Dialogs.FileDialogProps (list string) := {
  Dialogs.getFileStat := fun uri w =>
    (Fulfilled (if bool_decide (uri ∈ dw_stats w) then Some uri else None), w);
  Dialogs.getCurrentUserHome := fun w => (Fulfilled (dw_home w), w);
  Dialogs.roots := fun w => (Fulfilled (dw_roots w), w);
  Dialogs.stat_uri := fun stat => stat;
  Dialogs.new_URI := fun uri => uri;
  Dialogs.getName := fun uri w => (Fulfilled ("name of " +:+ uri), w);
  Dialogs.getIcon := fun uri w => (Fulfilled ("icon of " +:+ uri), w);
  Dialogs.DirNode_createRoot := fun stat name icon => (stat, name, icon);
  Dialogs.fileDialogFactory := fun props w => (Fulfilled props, w);
  Dialogs.navigateTo := fun _ rootNode w => desk_navigateTo rootNode w;
  Dialogs.open := fun _ w => (dw_pick w, w);
  Dialogs.getUris := fun selection => default [] selection;
  Dialogs.path_toString := fun uri => uri
}.

Definition desk_start (w : Desk) : Dialogs.St Desk :=
  {| Dialogs.world := w; Dialogs.console := [] |}.

Definition no_options : Dialogs.OpenDialogOptionsMain :=
  {| Dialogs.defaultUri := None; Dialogs.openLabel := None;
     Dialogs.canSelectFiles := None; Dialogs.canSelectFolders := None;
     Dialogs.canSelectMany := None; Dialogs.filters := None |}.

Definition options_at (uri : string) : Dialogs.OpenDialogOptionsMain :=
  {| Dialogs.defaultUri := Some uri; Dialogs.openLabel := None;
     Dialogs.canSelectFiles := None; Dialogs.canSelectFolders := None;
     Dialogs.canSelectMany := None; Dialogs.filters := None |}.

(** A desk with nothing to start from: no stat, no workspace root, no home. *)
Definition emptyDesk : Desk :=
  {| dw_stats := []; dw_roots := []; dw_home := None;
     dw_pick := Fulfilled None; dw_shown := [] |}.

(** A desk with a project folder, a workspace root and a home; the user
    picks two files. *)
Definition fullDesk : Desk :=
  {| dw_stats := ["file:///proj"]; dw_roots := ["file:///ws"; "file:///ws2"];
     dw_home := Some "file:///home/me";
     dw_pick := Fulfilled (Some ["/proj/a.ts"; "/proj/b.ts"]); dw_shown := [] |}.

End Toy.

(** ** Further parts of the sources *)

(** *** How [$showOpenDialog] can fail before its [try] block *)
Module DialogFailures.

Import Dialogs.

Section Bridge.
Context {W FileStat URI RootNode Dialog Selection : Type}.
Context `{!Services W FileStat URI RootNode Dialog Selection}.

(** [ResolutionFails options w e w']: one of the three services consulted
    at lines 54-66 fails with [e], leaving the world [w']; the services
    before it answered without a stat. *)
Inductive ResolutionFails (options : OpenDialogOptionsMain) (w : W)
  : JsError -> W -> Prop :=
| stat_fails uri e w1 :
    truthy_string (defaultUri options) = Some uri ->
    getFileStat uri w = (Failed e, w1) ->
    ResolutionFails options w e w1
| roots_fail w1 e w2 :
    DefaultSkipped options w w1 ->
    roots w1 = (Failed e, w2) ->
    ResolutionFails options w e w2
| home_fails w1 w2 e w3 :
    DefaultSkipped options w w1 ->
    roots w1 = (Fulfilled [], w2) ->
    getCurrentUserHome w2 = (Failed e, w3) ->
    ResolutionFails options w e w3.

(** [LabelFails rootStat w e w']: the label provider fails with [e] at
    line 75 or 76. *)
Inductive LabelFails (rootStat : FileStat) (w : W) : JsError -> W -> Prop :=
| name_fails e w1 :
    getName (new_URI (stat_uri rootStat)) w = (Failed e, w1) ->
    LabelFails rootStat w e w1
| icon_fails name w1 e w2 :
    getName (new_URI (stat_uri rootStat)) w = (Fulfilled name, w1) ->
    getIcon (new_URI (stat_uri rootStat)) w1 = (Failed e, w2) ->
    LabelFails rootStat w e w2.

(** Every way lines 51-77 can throw. *)
Inductive FailsBeforeTry (options : OpenDialogOptionsMain) (w : W)
  : JsError -> W -> Prop :=
| no_root e w' :
    RootChoice options w (Failed e) w' ->
    FailsBeforeTry options w e w'
| resolution_fails e w' :
    ResolutionFails options w e w' ->
    FailsBeforeTry options w e w'
| label_fails rootStat w1 e w' :
    RootChoice options w (Fulfilled rootStat) w1 ->
    LabelFails rootStat w1 e w' ->
    FailsBeforeTry options w e w'.

(** The runs of the [try] block (lines 79-116) from the world [w]:
    [TryBlock options rootNode w logged result w'].  The dialog factory,
    [navigateTo] or [open] throws [e]: the error is caught and [logged] is
    [Some e], the [result] is [undefined]; or all three return and the
    [result] is the list of the paths of the URIs of what [open] resolved
    with, nothing being logged. *)
Inductive TryBlock (options : OpenDialogOptionsMain) (rootNode : RootNode) (w : W)
  : option JsError -> option (list string) -> W -> Prop :=
| factory_throws e w1 :
    fileDialogFactory (dialogProps options) w = (Failed e, w1) ->
    TryBlock options rootNode w (Some e) None w1
| navigateTo_throws dialog w1 e w2 :
    fileDialogFactory (dialogProps options) w = (Fulfilled dialog, w1) ->
    navigateTo dialog rootNode w1 = (Failed e, w2) ->
    TryBlock options rootNode w (Some e) None w2
| open_throws dialog w1 w2 e w3 :
    fileDialogFactory (dialogProps options) w = (Fulfilled dialog, w1) ->
    navigateTo dialog rootNode w1 = (Fulfilled tt, w2) ->
    open dialog w2 = (Failed e, w3) ->
    TryBlock options rootNode w (Some e) None w3
| open_resolves dialog w1 w2 selection w3 :
    fileDialogFactory (dialogProps options) w = (Fulfilled dialog, w1) ->
    navigateTo dialog rootNode w1 = (Fulfilled tt, w2) ->
    open dialog w2 = (Fulfilled selection, w3) ->
    TryBlock options rootNode w None (Some (map path_toString (getUris selection))) w3.

(** What [console.log] has written after the [try] block. *)
Definition logged_errors (logged : option JsError) : list JsError :=
  match logged with
  | Some e => [e]
  | None => []
  end.

End Bridge.

End DialogFailures.

(** *** The navigator with the roots of the workspace awaited

    [this.workspaceService.roots] is a promise.  Above, the model reads the
    roots as delivered; here the methods that await them are embedded with
    the promise as it is: awaiting it gives the roots or throws. *)
Module NavigatorAsync.

Import Navigator.

(** [this.workspaceService.roots], awaited, and [root.uri]. *)
Class WorkspaceRoots (W FileStat : Type) : Type := {
  root_uri : FileStat -> string;
  workspaceService_roots : W -> settled (list FileStat) * W
}.

(** [CreationFails workspaceNode w roots e w']: of the calls
    [createWorkspaceRoot(root, workspaceNode)], made for the roots in order
    from the world [w], one throws [e], leaving the world [w']; the calls
    before it return, the calls after it are not made. *)
Inductive CreationFails {W FileStat C : Type} `{!NavigatorTree W FileStat C}
  (workspaceNode : WorkspaceNode C) : W -> list FileStat -> JsError -> W -> Prop :=
| creation_fails_here w root e w1 rest :
    createWorkspaceRoot root workspaceNode w = (Failed e, w1) ->
    CreationFails workspaceNode w (root :: rest) e w1
| creation_fails_later w root child w1 rest e w' :
    createWorkspaceRoot root workspaceNode w = (Fulfilled child, w1) ->
    CreationFails workspaceNode w1 rest e w' ->
    CreationFails workspaceNode w (root :: rest) e w'.

(** What a method does to the services: it awaits the roots or expands a
    node. *)
Inductive Step (Node : Type) : Type :=
| AwaitRoots
| ExpandNode (node : Node).
Arguments AwaitRoots {Node}.
Arguments ExpandNode {Node} node.

(** The nodes expanded by a sequence of steps, and the number of times the
    roots are awaited. *)
Fixpoint expansions {Node} (steps : list (Step Node)) : list Node :=
  match steps with
  | [] => []
  | AwaitRoots :: rest => expansions rest
  | ExpandNode n :: rest => n :: expansions rest
  end.

Fixpoint awaits {Node} (steps : list (Step Node)) : nat :=
  match steps with
  | [] => 0
  | AwaitRoots :: rest => S (awaits rest)
  | ExpandNode _ :: rest => awaits rest
  end.

(** The error a promise rejects with, if it does. *)
Definition rejection {A} (o : outcome A) : option JsError :=
  match o with
  | Rejected e => Some e
  | _ => None
  end.

Section Model.
Context {W FileStat Node C URI : Type}.
Context `{WR : !WorkspaceRoots W FileStat, TM : !TreeModel W Node,
          NT : !NavigatorTree W FileStat C, UA : !UriApi URI}.

Local Open Scope promise_scope.

Abbreviation State := (St W Node C).

(** [createRoot()], lines 56-67. *)
Definition createRoot : Promise State (option (WorkspaceNode C)) :=
  roots <- await workspaceService_roots ;;
  if (0 <? length roots)%nat then
    let workspaceNode := WorkspaceNode_createRoot [] in
    children <- createChildren roots workspaceNode ;;
    let workspaceNode := set_children workspaceNode children in
    ret (Some workspaceNode)
  else ret None.

(** [updateRoot()], lines 52-54. *)
Definition updateRoot : Promise State unit :=
  r <- createRoot ;;
  set_root r.

(** [getNodesByUri(nodeUri)], lines 185-195. *)
Definition getNodesByUri (nodeUri : string) : Promise State (list Node) :=
  roots <- await workspaceService_roots ;;
  w <- read (fun w => w) ;;
  ret (omap (fun node => node)
         (map (fun parentNodeId => getNode w parentNodeId)
            (map (fun root => WorkspaceRootNode_createId (root_uri root) nodeUri) roots))).

(** [getNodeClosestToRootByUri(uri)], lines 127-134. *)
Definition getNodeClosestToRootByUri (uri : string) : Promise State (option Node) :=
  nodes <- getNodesByUri uri ;;
  ret (match nodes with
       | [] => None
       | node :: nodes => Some (fold_left closer nodes node)
       end).

(** Lines 115-122. *)
Definition revealAfterParent (navigatorNodeId : string) (node : option Node)
  : Promise State (option Node) :=
  node <- match node with
          | None =>
              (* get node if it wasn't mounted into navigator tree before expansion *)
              getNodeClosestToRootByUri navigatorNodeId
          | Some _ => ret node
          end ;;
  match node with
  | Some n =>
      w <- read (fun w => w) ;;
      (if ExpandableTreeNode_is w n then expandIfCollapsed n else ret tt) ;;;
      ret (Some n)
  | None => ret None
  end.

(** Lines 107-124, with the recursive call as the parameter [revealFile]. *)
Definition revealBelow (revealFile : URI -> Promise State (option Node))
  (targetFileUri : URI) (node : option Node) : Promise State (option Node) :=
  if isRoot targetFileUri then ret None
  else
    revealed <- revealFile (parent targetFileUri) ;;
    match revealed with
    | Some _ => revealAfterParent (toString targetFileUri) node
    | None => ret None
    end.

(** [revealFile(targetFileUri)], lines 86-125. *)
Definition revealFile_body (revealFile : URI -> Promise State (option Node))
  (targetFileUri : URI) : Promise State (option Node) :=
  if negb (String.eqb (scheme targetFileUri) "file") then ret None
  else
    let navigatorNodeId := toString targetFileUri in
    node <- getNodeClosestToRootByUri navigatorNodeId ;;
    w <- read (fun w => w) ;;
    match node with
    | Some n =>
        (* success stop condition *)
        if WorkspaceRootNode_is w n then
          if ExpandableTreeNode_is w n then
            expandIfCollapsed n ;;; ret (Some n)
          else ret None
        else revealBelow revealFile targetFileUri node
    | None => revealBelow revealFile targetFileUri node
    end.

(** The recursion, cut after [fuel] nested calls. *)
Fixpoint revealFile_fuel (fuel : nat) : URI -> Promise State (option Node) :=
  match fuel with
  | 0 => fun _ => never
  | S fuel => revealFile_body (revealFile_fuel fuel)
  end.

Definition revealFile (targetFileUri : URI) : Promise State (option Node) :=
  revealFile_fuel (S (segments targetFileUri)) targetFileUri.

(** [Steps w steps err w']: the [steps], made in this order from the world
    [w], leave the world [w']; every step but the last returns, and the
    last one returns ([err] is [None]) or throws [e] ([err] is [Some e]). *)
Inductive Steps : W -> list (Step Node) -> option JsError -> W -> Prop :=
| steps_none w : Steps w [] None w
| steps_roots w roots w1 steps err w' :
    workspaceService_roots w = (Fulfilled roots, w1) ->
    Steps w1 steps err w' ->
    Steps w (AwaitRoots :: steps) err w'
| steps_roots_rejected w e w1 :
    workspaceService_roots w = (Failed e, w1) ->
    Steps w [AwaitRoots] (Some e) w1
| steps_expand n w w1 steps err w' :
    expandNode n w = (Fulfilled tt, w1) ->
    Steps w1 steps err w' ->
    Steps w (ExpandNode n :: steps) err w'
| steps_expand_throws n w e w1 :
    expandNode n w = (Failed e, w1) ->
    Steps w [ExpandNode n] (Some e) w1.

(** [Runs m a b]: run from any state, [m] settles; all it does is a
    sequence of steps, with at most [a] awaits of the roots and [b]
    expansions; the expansions are what the call log gains, the steps
    account for the change of the world, and the model's root is the same;
    [m] rejects exactly when the last step throws, with the error
    thrown. *)
Definition Runs {A} (m : Promise State A) (a b : nat) : Prop :=
  forall st, exists steps err,
    calls (snd (m st)) = calls st ++ map CallExpandNode (expansions steps) /\
    root (snd (m st)) = root st /\
    Steps (world st) steps err (world (snd (m st))) /\
    awaits steps <= a /\
    length (expansions steps) <= b /\
    is_pending (fst (m st)) = false /\
    rejection (fst (m st)) = err.

End Model.

End NavigatorAsync.

(** *** The tree iterators of the navigator ([navigator-model.ts],
    lines 136-162) *)
Module NavigatorIterators.

(** [this.navigatorSearch.filteredNodes]. *)
Class NavigatorSearch (W Node : Type) : Type := {
  filteredNodes : W -> list Node
}.

(** What the two methods return: [undefined], the iterator of the generic
    tree model for the node, or [Iterators.cycle(nodes, start)].  The two
    makers of iterators are not among the embedded sources; the model keeps
    the call that is made. *)
Inductive IteratorChoice (Node : Type) : Type :=
| Undefined
| SuperBackwardIterator (node : Node)
| SuperIterator (node : Node)
| IteratorsCycle (nodes : list Node) (start : Node).
Arguments Undefined {Node}.
Arguments SuperBackwardIterator {Node} node.
Arguments SuperIterator {Node} node.
Arguments IteratorsCycle {Node} nodes start.

Section Model.
Context {W Node : Type} `{!NavigatorSearch W Node, !EqDecision Node}.

(** [array.indexOf(x)]: the first index holding [x] (compared with [===]),
    or -1. *)
Fixpoint indexOf (array : list Node) (x : Node) : Z :=
  match array with
  | [] => (-1)%Z
  | y :: rest =>
      if decide (y = x) then 0%Z
      else match indexOf rest x with
           | Zneg _ => (-1)%Z
           | i => (i + 1)%Z
           end
  end.

(** [createBackwardIterator(node)], lines 136-148. *)
Definition createBackwardIterator (w : W) (node : option Node) : IteratorChoice Node :=
  match node with
  | None => Undefined
  | Some node =>
      let filteredNodes := filteredNodes w in
      if (length filteredNodes =? 0)%nat then SuperBackwardIterator node
      else if (indexOf filteredNodes node =? -1)%Z then Undefined
      else IteratorsCycle (rev filteredNodes) node
  end.

(** [createIterator(node)], lines 150-162. *)
Definition createIterator (w : W) (node : option Node) : IteratorChoice Node :=
  match node with
  | None => Undefined
  | Some node =>
      let filteredNodes := filteredNodes w in
      if (length filteredNodes =? 0)%nat then SuperIterator node
      else if (indexOf filteredNodes node =? -1)%Z then Undefined
      else IteratorsCycle filteredNodes node
  end.

End Model.

End NavigatorIterators.

(** *** The quick-open contribution ([QuickOpenHandlerFrontendContribution]) *)
Module QuickOpen.

(** [this.contributionProvider.getContributions()] and the hook
    [contrib.registerQuickOpenHandlers(registry)], which may throw; the
    registry is the object injected in the constructor. *)
Class ContributionProvider (W Contribution Registry : Type) : Type := {
  getContributions : W -> list Contribution;
  quickOpenHandlerRegistry : Registry;
  registerQuickOpenHandlers : Contribution -> Registry -> W -> settled unit * W
}.

(** State: the world, and the contributions whose hook has been called, in
    the order of the calls. *)
Record St (W Contribution : Type) : Type := {
  world : W;
  called : list Contribution
}.
Arguments world {W Contribution} _.
Arguments called {W Contribution} _.

Section Model.
Context {W Contribution Registry : Type}.
Context `{!ContributionProvider W Contribution Registry}.

(** [array.forEach(contrib => contrib.registerQuickOpenHandlers(registry))]:
    an exception leaves the loop. *)
Fixpoint forEach_register (contributions : list Contribution) (st : St W Contribution)
  : settled unit * St W Contribution :=
  match contributions with
  | [] => (Fulfilled tt, st)
  | contrib :: rest =>
      match registerQuickOpenHandlers contrib quickOpenHandlerRegistry (world st) with
      | (Fulfilled _, w') =>
          forEach_register rest {| world := w'; called := called st ++ [contrib] |}
      | (Failed e, w') =>
          (Failed e, {| world := w'; called := called st ++ [contrib] |})
      end
  end.

(** [onStart()], lines 31-35. *)
Definition onStart (st : St W Contribution) : settled unit * St W Contribution :=
  forEach_register (getContributions (world st)) st.

(** [Registers w contributions w']: the hooks of the [contributions],
    called in this order from the world [w], all return and leave the
    world [w']. *)
Inductive Registers : W -> list Contribution -> W -> Prop :=
| registers_none w : Registers w [] w
| registers_next w contrib w1 rest w' :
    registerQuickOpenHandlers contrib quickOpenHandlerRegistry w = (Fulfilled tt, w1) ->
    Registers w1 rest w' ->
    Registers w (contrib :: rest) w'.

End Model.

End QuickOpen.

(** *** More small implementations *)
Module MoreToy.

Import Toy.

(** A desk whose file system refuses to stat [file:///denied] and whose
    label provider has no icon for [file:///noicon]. *)
Definition strictDeskServices
  : Dialogs.Services Desk string string (string * string * string)
      Dialogs.FileDialogProps (list string) := {|
  Dialogs.getFileStat := fun uri w =>
    (if String.eqb uri "file:///denied" then Failed (Error "EACCES")
     else Fulfilled (if bool_decide (uri ∈ dw_stats w) then Some uri else None), w);
  Dialogs.getCurrentUserHome := fun w => (Fulfilled (dw_home w), w);
  Dialogs.roots := fun w => (Fulfilled (dw_roots w), w);
  Dialogs.stat_uri := fun stat => stat;
  Dialogs.new_URI := fun uri => uri;
  Dialogs.getName := fun uri w => (Fulfilled ("name of " +:+ uri), w);
  Dialogs.getIcon := fun uri w =>
    (if String.eqb uri "file:///noicon" then Failed (Error "no icon")
     else Fulfilled ("icon of " +:+ uri), w);
  Dialogs.DirNode_createRoot := fun stat name icon => (stat, name, icon);
  Dialogs.fileDialogFactory := fun props w => (Fulfilled props, w);
  Dialogs.navigateTo := fun _ rootNode w => desk_navigateTo rootNode w;
  Dialogs.open := fun _ w => (dw_pick w, w);
  Dialogs.getUris := fun selection => default [] selection;
  Dialogs.path_toString := fun uri => uri
|}.

(** A desk whose user cancels the dialog: [open] resolves with
    [undefined], of which [UriSelection.getUris] makes the empty list. *)
Definition cancelledDesk : Desk :=
  {| dw_stats := []; dw_roots := ["file:///ws"]; dw_home := None;
     dw_pick := Fulfilled None; dw_shown := [] |}.

(** A desk whose dialog fails to open. *)
Definition brokenDialogDesk : Desk :=
  {| dw_stats := []; dw_roots := ["file:///ws"]; dw_home := None;
     dw_pick := Failed (Error "dialog failed"); dw_shown := [] |}.

(** A search filter over the toy tree: the world is the tree together with
    the filtered nodes. *)
Definition toySearch : NavigatorIterators.NavigatorSearch (list string) string :=
  {| NavigatorIterators.filteredNodes := fun w => w |}.

(** Quick-open contributions: a contribution is a name; registering adds it
    to the registry, which is the world; the contribution named [bad]
    throws. *)
Definition toyContributions (provided : list string)
  : QuickOpen.ContributionProvider (list string) string unit :=
  {| QuickOpen.getContributions := fun _ => provided;
     QuickOpen.quickOpenHandlerRegistry := tt;
     QuickOpen.registerQuickOpenHandlers := fun contrib _ w =>
       if String.eqb contrib "bad" then (Failed (Error "bad contribution"), w)
       else (Fulfilled tt, w ++ [contrib]) |}.

Definition quick_start : QuickOpen.St (list string) string :=
  {| QuickOpen.world := []; QuickOpen.called := [] |}.

(** The roots of the toy workspace as a promise: it is rejected while the
    workspace is unreachable. *)
#[export] Instance toyRoots : NavigatorAsync.WorkspaceRoots ToyWorld string := {
  NavigatorAsync.root_uri := fun rootStat => rootStat;
  NavigatorAsync.workspaceService_roots := fun w =>
    match toy_roots w with
    | "unreachable" :: _ => (Failed (Error "workspace unreachable"), w)
    | rootStats => (Fulfilled rootStats, w)
    end
}.

(** A tree that cannot make the root node of [file:///gone]. *)
Definition fragileTree : Navigator.NavigatorTree ToyWorld string string :=
  {| Navigator.createWorkspaceRoot := fun rootStat _ w =>
       if String.eqb rootStat "file:///gone"
       then (Failed (Error "no such folder"), w)
       else (Fulfilled (toy_createId rootStat rootStat), w) |}.

Definition goneRoot : ToyWorld :=
  {| mounted := ∅; listing := ∅;
     toy_roots := ["file:///a"; "file:///gone"; "file:///b"] |}.

Definition unreachableWorkspace : ToyWorld :=
  {| mounted := ∅; listing := ∅; toy_roots := ["unreachable"] |}.

(** A state that already has a root. *)
Definition rooted (w : ToyWorld) : ToyState :=
  {| Navigator.world := w;
     Navigator.root := Some {| Navigator.children := ["old root"] |};
     Navigator.calls := [] |}.

(** The workspace root of [oneRoot], collapsed. *)
Definition collapsedRoot : ToyWorld :=
  {| mounted :=
       <[ "WorkspaceNode" := workspaceNode ]>
       (<[ ws_id := dirNode "WorkspaceNode" false ]> ∅);
     listing := <[ ws_id := [(ws_f_id, fileNode ws_id)] ]> ∅;
     toy_roots := ["file:///ws"] |}.

Definition ws_uri : PathUri := file_uri ["ws"].
Definition ws_a_x_uri : PathUri := file_uri ["ws"; "a"; "x.txt"].
Definition ws_new_created : Navigator.FileChange PathUri :=
  {| Navigator.change_uri := file_uri ["ws"; "new.txt"];
     Navigator.change_type := Navigator.CREATED |}.

End MoreToy.

(** * Properties *)

(** ** Laws of the promise combinators *)
Module AsyncFacts.

Section Laws.
Context {S A B : Type}.

Lemma bind_resolved (m : Promise S A) (k : A -> Promise S B) s a s' :
  m s = (Resolved a, s') -> bind m k s = k a s'.
Proof. intros Hm. unfold bind. now rewrite Hm. Qed.

Lemma bind_rejected (m : Promise S A) (k : A -> Promise S B) s e s' :
  m s = (Rejected e, s') -> bind m k s = (Rejected e, s').
Proof. intros Hm. unfold bind. now rewrite Hm. Qed.

Lemma bind_pending (m : Promise S A) (k : A -> Promise S B) s s' :
  m s = (Pending, s') -> bind m k s = (Pending, s').
Proof. intros Hm. unfold bind. now rewrite Hm. Qed.

Lemma bind_ret (a : A) (k : A -> Promise S B) s : bind (ret a) k s = k a s.
Proof. reflexivity. Qed.

Lemma try_catch_resolved (m : Promise S A) h s a s' :
  m s = (Resolved a, s') -> try_catch m h s = (Resolved a, s').
Proof. intros Hm. unfold try_catch. now rewrite Hm. Qed.

Lemma try_catch_rejected (m : Promise S A) h s e s' :
  m s = (Rejected e, s') -> try_catch m h s = h e s'.
Proof. intros Hm. unfold try_catch. now rewrite Hm. Qed.

End Laws.

End AsyncFacts.

(** ** The dialog bridge *)
Module DialogsFacts.

Import Dialogs DialogFailures AsyncFacts.

Section Bridge.
Context {W FileStat URI RootNode Dialog Selection : Type}.
Context `{!Services W FileStat URI RootNode Dialog Selection}.

Lemma call_fulfilled {A} (service : W -> settled A * W) (st : St W) a w' :
  service (world st) = (Fulfilled a, w') ->
  call service st = (Resolved a, with_world st w').
Proof. intros Hc. unfold call. now rewrite Hc. Qed.

Lemma call_failed {A} (service : W -> settled A * W) (st : St W) e w' :
  service (world st) = (Failed e, w') ->
  call service st = (Rejected e, with_world st w').
Proof. intros Hc. unfold call. now rewrite Hc. Qed.

Lemma with_world_same (st : St W) : with_world st (world st) = st.
Proof. now destruct st. Qed.

(** The code's root resolution follows the specification's precedence. *)
Lemma resolveRootStat_follows_precedence options (st : St W) r w' :
  RootChoice options (world st) r w' ->
  resolveRootStat options st = (of_settled r, with_world st w').
Proof.
  intros Hc. unfold resolveRootStat.
  assert (Hskip : forall w1 (k : option FileStat -> Promise (St W) FileStat),
    DefaultSkipped options (world st) w1 ->
    bind (match truthy_string (defaultUri options) with
          | Some uri => call (getFileStat uri)
          | None => ret None
          end) k st = k None (with_world st w1)).
  { intros w1 k Hs. destruct Hs as [Hg | uri w1 Hg Hs].
    - rewrite Hg. rewrite bind_ret. now rewrite with_world_same.
    - rewrite Hg. now rewrite (bind_resolved _ _ _ _ _ (call_fulfilled _ _ _ _ Hs)). }
  destruct Hc as [uri rootStat w1 Hg Hs
                 | w1 rootStat others w2 Hd Hr
                 | w1 w2 rootStat w3 Hd Hr Hh
                 | w1 w2 w3 Hd Hr Hh].
  - rewrite Hg. now rewrite (bind_resolved _ _ _ _ _ (call_fulfilled _ _ _ _ Hs)).
  - rewrite (Hskip _ _ Hd).
    unfold bind at 1. unfold bind at 1.
    rewrite (call_fulfilled roots (with_world st w1) _ _ Hr). reflexivity.
  - rewrite (Hskip _ _ Hd).
    unfold bind at 1. unfold bind at 1.
    rewrite (call_fulfilled roots (with_world st w1) _ _ Hr). simpl.
    rewrite (bind_resolved _ _ _ _ _
               (call_fulfilled getCurrentUserHome (with_world (with_world st w1) w2) _ _ Hh)).
    reflexivity.
  - rewrite (Hskip _ _ Hd).
    unfold bind at 1. unfold bind at 1.
    rewrite (call_fulfilled roots (with_world st w1) _ _ Hr). simpl.
    rewrite (bind_resolved _ _ _ _ _
               (call_fulfilled getCurrentUserHome (with_world (with_world st w1) w2) _ _ Hh)).
    reflexivity.
Qed.

Lemma openDialog_never_rejects options rootNode (st0 : St W) :
  exists r st1,
    openDialog options rootNode st0 = (Resolved r, st1) /\
    TryBlockResult options rootNode st0 r st1.
Proof.
  unfold openDialog, try_catch, bind, call, console_log, ret.
  destruct (fileDialogFactory (dialogProps options) (world st0)) as [[dialog | e] w1] eqn:Hf;
    simpl.
  2: { eexists None, _. split; [reflexivity | now exists e]. }
  destruct (navigateTo dialog rootNode w1) as [[[] | e] w2] eqn:Hn; simpl.
  2: { eexists None, _. split; [reflexivity | now exists e]. }
  destruct (open dialog w2) as [[result | e] w3] eqn:Ho; simpl.
  2: { eexists None, _. split; [reflexivity | now exists e]. }
  eexists (Some _), _. split; [reflexivity |].
  split; [reflexivity |]. exists dialog, w1, w2, result. auto.
Qed.

(** C1. [$showOpenDialog] finds the dialog's root by a fixed precedence,
    first match wins: the stat of [options.defaultUri] when it is given and
    has a stat; otherwise the first workspace root; otherwise the stat of
    the user's home; when none of the three yields a stat the call fails
    with an error.  ([RootChoice] is this precedence; the root found is the
    one the rest of the method works with.) *)
Theorem showOpenDialog_root_precedence options (st : St W) r w' :
  RootChoice options (world st) r w' ->
  showOpenDialog options st =
    match r with
    | Fulfilled rootStat => showOpenDialogAt options rootStat (with_world st w')
    | Failed e => (Rejected e, with_world st w')
    end.
Proof.
  intros Hc. unfold showOpenDialog.
  pose proof (resolveRootStat_follows_precedence options st r w' Hc) as Hr.
  destruct r as [rootStat | e]; simpl in Hr.
  - now rewrite (bind_resolved _ _ _ _ _ Hr).
  - now rewrite (bind_rejected _ _ _ _ _ Hr).
Qed.

Lemma TryBlock_total options (rootNode : RootNode) (w : W) :
  exists logged result w', TryBlock options rootNode w logged result w'.
Proof.
  destruct (fileDialogFactory (dialogProps options) w) as [[dialog | e] w1] eqn:Hf.
  2: { exists (Some e), None, w1. now apply factory_throws. }
  destruct (navigateTo dialog rootNode w1) as [[[] | e] w2] eqn:Hn.
  2: { exists (Some e), None, w2. eapply navigateTo_throws; eassumption. }
  destruct (open dialog w2) as [[selection | e] w3] eqn:Ho.
  - eexists None, _, w3. eapply open_resolves; eassumption.
  - exists (Some e), None, w3. eapply open_throws; eassumption.
Qed.

(** The [try] block with its [catch]: it resolves, with the result of the
    run and with the caught error, if any, appended to the console. *)
Lemma openDialog_runs options (rootNode : RootNode) (st : St W) logged result w' :
  TryBlock options rootNode (world st) logged result w' ->
  openDialog options rootNode st =
    (Resolved result,
     {| world := w'; console := console st ++ logged_errors logged |}).
Proof.
  intros Hrun. unfold openDialog, try_catch, bind, call, console_log, ret.
  destruct Hrun as [e w1 Hf | dialog w1 e w2 Hf Hn | dialog w1 w2 e w3 Hf Hn Ho
                   | dialog w1 w2 selection w3 Hf Hn Ho]; rewrite Hf; simpl.
  - reflexivity.
  - rewrite Hn. reflexivity.
  - rewrite Hn. simpl. rewrite Ho. reflexivity.
  - rewrite Hn. simpl. rewrite Ho. simpl. now rewrite app_nil_r.
Qed.

(** C2, amended.  [$showOpenDialog] does reject when no root is found: the
    [throw] precedes the [try] block, so the error reaches the caller and
    nothing is logged.  Once a root is found and the label provider has
    answered, the call never rejects, for the [try] block always runs in
    one of four ways: the dialog factory, [navigateTo] or [open] throws,
    and then that very error is logged and the call resolves with
    [undefined]; or [open] resolves, with a selection or with none, and
    then nothing is logged and the call resolves with the list of the URIs
    of what [open] resolved with, translated to path strings. *)
Theorem showOpenDialog_rejects_only_before_try options (st : St W) r w' :
  RootChoice options (world st) r w' ->
  match r with
  | Failed e =>
      showOpenDialog options st = (Rejected e, with_world st w')
  | Fulfilled rootStat =>
      forall name w2 icon w3,
        getName (new_URI (stat_uri rootStat)) w' = (Fulfilled name, w2) ->
        getIcon (new_URI (stat_uri rootStat)) w2 = (Fulfilled icon, w3) ->
        (exists logged result w4,
           TryBlock options (DirNode_createRoot rootStat name icon) w3 logged result w4) /\
        (forall logged result w4,
           TryBlock options (DirNode_createRoot rootStat name icon) w3 logged result w4 ->
           showOpenDialog options st =
             (Resolved result,
              {| world := w4; console := console st ++ logged_errors logged |}))
  end.
Proof.
  intros Hc. unfold showOpenDialog.
  pose proof (resolveRootStat_follows_precedence options st r w' Hc) as Hr.
  destruct r as [rootStat | e]; simpl in Hr.
  - intros name w2 icon w3 Hname Hicon. split; [apply TryBlock_total |].
    intros logged result w4 Hrun.
    rewrite (bind_resolved _ _ _ _ _ Hr). unfold showOpenDialogAt.
    rewrite (bind_resolved _ _ _ _ _
               (call_fulfilled (getName _) (with_world st w') _ _ Hname)).
    rewrite (bind_resolved _ _ _ _ _
               (call_fulfilled (getIcon _) (with_world (with_world st w') w2) _ _ Hicon)).
    exact (openDialog_runs options _ (with_world (with_world (with_world st w') w2) w3)
             logged result w4 Hrun).
  - now rewrite (bind_rejected _ _ _ _ _ Hr).
Qed.

End Bridge.

Import Toy MoreToy.

Lemma showOpenDialog_root_precedence_witness :
  showOpenDialog (options_at "file:///proj") (desk_start fullDesk) =
  showOpenDialogAt (options_at "file:///proj") "file:///proj" (desk_start fullDesk).
Proof.
  apply (showOpenDialog_root_precedence (options_at "file:///proj")
           (desk_start fullDesk) (Fulfilled "file:///proj") fullDesk).
  apply (choose_default _ _ "file:///proj"); reflexivity.
Defined.

(** The titles of the dialog. *)
Example dialogTitle_files_many :
  dialogTitle {| defaultUri := None; openLabel := None; canSelectFiles := Some true;
                 canSelectFolders := Some false; canSelectMany := Some true;
                 filters := None |} = "Open File(s)".
Proof. reflexivity. Qed.

Example dialogTitle_folders :
  dialogTitle {| defaultUri := None; openLabel := None; canSelectFiles := Some false;
                 canSelectFolders := Some true; canSelectMany := None;
                 filters := None |} = "Open Folder".
Proof. reflexivity. Qed.

Example dialogTitle_defaults : dialogTitle no_options = "Open".
Proof. reflexivity. Qed.

(** C2 as stated fails, twice.  With no default URI, no workspace root and
    no home, the call rejects, and the error is not logged.  And when the
    user cancels the dialog ([open] resolves with [undefined]) the call
    resolves with the empty list of paths, not with [undefined]. *)
Lemma showOpenDialog_rejects_without_root :
  showOpenDialog no_options (desk_start emptyDesk) =
    (Rejected (Error "Unable to find the rootStat"), desk_start emptyDesk) /\
  open (dialogProps no_options) cancelledDesk = (Fulfilled None, cancelledDesk) /\
  fst (showOpenDialog no_options (desk_start cancelledDesk)) = Resolved (Some []) /\
  fst (showOpenDialog no_options (desk_start cancelledDesk)) <> Resolved None.
Proof. repeat split; try reflexivity. discriminate. Qed.

Lemma showOpenDialog_rejects_only_before_try_witness :
  showOpenDialog (options_at "file:///proj") (desk_start fullDesk) =
    (Resolved (Some ["/proj/a.ts"; "/proj/b.ts"]),
     {| world := snd (desk_navigateTo
                        ("file:///proj", "name of file:///proj", "icon of file:///proj")
                        fullDesk);
        console := [] |}).
Proof.
  refine (proj2 (showOpenDialog_rejects_only_before_try (options_at "file:///proj")
            (desk_start fullDesk) (Fulfilled "file:///proj") fullDesk _
            "name of file:///proj" fullDesk "icon of file:///proj" fullDesk _ _)
            None _ _ _).
  - apply (choose_default _ _ "file:///proj"); reflexivity.
  - reflexivity.
  - reflexivity.
  - exact (open_resolves (options_at "file:///proj")
             ("file:///proj", "name of file:///proj", "icon of file:///proj") fullDesk
             (dialogProps (options_at "file:///proj")) fullDesk
             (snd (desk_navigateTo
                     ("file:///proj", "name of file:///proj", "icon of file:///proj")
                     fullDesk))
             (Some ["/proj/a.ts"; "/proj/b.ts"]) _ eq_refl eq_refl eq_refl).
Defined.

End DialogsFacts.

(** ** URIs *)
Module UriFacts.

Lemma removelast_shortens {A} (l : list A) : l <> [] -> length (removelast l) < length l.
Proof.
  induction l as [| a [| b l] IH]; intros Hne; simpl in *.
  - congruence.
  - lia.
  - assert (b :: l <> []) as Hb by discriminate. specialize (IH Hb). lia.
Qed.

#[export] Instance pathUriLaws : UriLaws PathUri.
Proof.
  intros [sch path]. unfold isRoot, parent, segments. simpl.
  unfold pu_isRoot. simpl. destruct path as [| seg path]; intros Hroot.
  - discriminate.
  - apply removelast_shortens. discriminate.
Qed.

Section Ancestors.
Context {URI : Type} `{!UriApi URI}.

Lemma ancestor_succ k (u : URI) : ancestor (S k) u = parent (ancestor k u).
Proof.
  revert u. induction k as [| k IH]; intros u.
  - reflexivity.
  - change (ancestor (S (S k)) u) with (ancestor (S k) (parent u)).
    rewrite IH. reflexivity.
Qed.

End Ancestors.

Lemma removelast_no_longer {A} (l : list A) : length (removelast l) <= length l.
Proof.
  destruct l as [| a l]; [simpl; lia |].
  assert (a :: l <> []) as Hne by discriminate.
  pose proof (removelast_shortens (a :: l) Hne). lia.
Qed.

Lemma pathUri_ancestor_no_longer k (u : PathUri) :
  segments (ancestor k u) <= segments u.
Proof.
  revert u. induction k as [| k IH]; intros u.
  - simpl. lia.
  - change (ancestor (S k) u) with (ancestor k (pu_parent u)).
    specialize (IH (pu_parent u)).
    pose proof (removelast_no_longer (pu_path u)) as Hle.
    change (segments (pu_parent u)) with (length (removelast (pu_path u))) in IH.
    change (segments u) with (length (pu_path u)). lia.
Qed.

(** Chains of parents of path URIs have no cycle below the filesystem
    root. *)
Lemma pathUri_acyclic (u : PathUri) k :
  isRoot u = false -> 0 < k -> ancestor k u <> u.
Proof.
  intros Hroot Hk Heq. destruct k as [| k]; [lia |].
  pose proof (pathUri_ancestor_no_longer k (parent u)) as Hle.
  pose proof (parent_shortens u Hroot) as Hlt.
  change (ancestor (S k) u) with (ancestor k (parent u)) in Heq.
  rewrite Heq in Hle. lia.
Qed.

End UriFacts.

(** ** The navigator model *)
Module NavigatorFacts.

Import Navigator AsyncFacts UriFacts.

Section Model.
Context {W FileStat Node C URI : Type}.
Context `{!WorkspaceService W FileStat, !TreeModel W Node,
          !NavigatorTree W FileStat C, !UriApi URI}.

Abbreviation State := (St W Node C).

(** *** [getNodeClosestToRootByUri] *)

Lemma closer_cases (node1 node2 : Node) :
  (idlen node2 <= idlen node1 /\ closer node1 node2 = node1) \/
  (idlen node1 < idlen node2 /\ closer node1 node2 = node2).
Proof.
  unfold closer. destruct (Nat.leb_spec (idlen node2) (idlen node1)); auto.
Qed.

(** The reduction keeps the first node of maximal id length. *)
Lemma fold_closer_first_longest (nodes : list Node) : forall node,
  exists before after,
    node :: nodes = before ++ fold_left closer nodes node :: after /\
    Forall (fun c => idlen c < idlen (fold_left closer nodes node)) before /\
    Forall (fun c => idlen c <= idlen (fold_left closer nodes node)) after.
Proof.
  induction nodes as [| x rest IH]; intros node; simpl.
  - exists [], []. repeat split; constructor.
  - destruct (closer_cases node x) as [[Hle Hc] | [Hlt Hc]]; rewrite Hc.
    + destruct (IH node) as (before & after & Heq & Hb & Ha).
      set (r := fold_left closer rest node) in *. clearbody r.
      destruct before as [| b before]; simpl in Heq; injection Heq as Hn Hrest.
      * subst r after. exists [], (x :: rest).
        split; [reflexivity |]. split; [constructor |].
        constructor; [exact Hle | exact Ha].
      * subst b. exists (node :: x :: before), after.
        split; [simpl; now rewrite Hrest |]. split; [| exact Ha].
        inversion Hb as [| ? ? Hnode Hbefore]; subst.
        constructor; [exact Hnode |]. constructor; [lia | exact Hbefore].
    + destruct (IH x) as (before & after & Heq & Hb & Ha).
      set (r := fold_left closer rest x) in *. clearbody r.
      exists (node :: before), after.
      split; [simpl; now rewrite Heq |]. split; [| exact Ha].
      constructor; [| exact Hb].
      destruct before as [| b before]; simpl in Heq; injection Heq as Hx Hrest.
      * subst r. exact Hlt.
      * subst b. inversion Hb; subst. lia.
Qed.

(** The candidates are the mounted nodes found under the workspace roots,
    in the order of the roots. *)
Lemma getNodesByUri_in_root_order (w : W) (uri : string) :
  getNodesByUri w uri =
  omap (fun root => getNode w (WorkspaceRootNode_createId (stat_uri root) uri)) (roots w).
Proof.
  unfold getNodesByUri. induction (roots w) as [| root rest IH]; cbn in *.
  - reflexivity.
  - destruct (getNode w _); congruence.
Qed.

(** C9. [getNodeClosestToRootByUri] returns [undefined] when no workspace
    root yields a candidate node; otherwise it returns a candidate whose id
    length is maximal among the candidates, and among candidates of maximal
    id length the one of the earliest root: every candidate before it is
    strictly shorter, every candidate after it is at most as long. *)
Theorem getNodeClosestToRootByUri_longest_id (w : W) (uri : string) :
  (getNodesByUri w uri = [] -> getNodeClosestToRootByUri w uri = None) /\
  match getNodeClosestToRootByUri w uri with
  | None => getNodesByUri w uri = []
  | Some r =>
      exists before after,
        getNodesByUri w uri = before ++ r :: after /\
        Forall (fun c => idlen c < idlen r) before /\
        Forall (fun c => idlen c <= idlen r) after
  end.
Proof.
  unfold getNodeClosestToRootByUri.
  destruct (getNodesByUri w uri) as [| node nodes].
  - split; reflexivity.
  - split; [discriminate |]. apply fold_closer_first_longest.
Qed.

(** *** [updateRoot] *)

Lemma createChildren_fulfils workspaceNode (st : State) rs children w' :
  CreatesChildren workspaceNode (world st) rs children w' ->
  createChildren rs workspaceNode st =
    (Resolved children, {| world := w'; root := root st; calls := calls st |}).
Proof.
  remember (world st) as w eqn:Hw. intros Hc. revert st Hw.
  induction Hc as [w | w r child w1 rest children w' Hcall Hrest IH]; intros st Hw.
  - simpl. unfold ret. subst w. now destruct st.
  - simpl. unfold bind at 1. unfold await. subst w. rewrite Hcall. simpl.
    unfold bind at 1.
    rewrite (IH {| world := w1; root := root st; calls := calls st |} eq_refl).
    reflexivity.
Qed.

Lemma CreatesChildren_pairs workspaceNode w rs children w' :
  CreatesChildren workspaceNode w rs children w' ->
  Forall2 (fun r child => exists w1 w2,
             createWorkspaceRoot r workspaceNode w1 = (Fulfilled child, w2))
    rs children.
Proof.
  induction 1 as [w | w r child w1 rest children w' Hcall Hrest IH].
  - constructor.
  - constructor; [now exists w, w1 | exact IH].
Qed.

(** C3. [updateRoot] with no workspace root sets the root to [undefined];
    with N > 0 workspace roots it sets the root to a new workspace node
    whose children are the N nodes that [createWorkspaceRoot] returns for
    the roots, one per root and in the provider's order. *)
Theorem updateRoot_sets_root (st : State) children w' :
  CreatesChildren (WorkspaceNode_createRoot []) (world st) (roots (world st)) children w' ->
  updateRoot st =
    (Resolved tt,
     {| world := w';
        root := match roots (world st) with
                | [] => None
                | _ :: _ => Some {| Navigator.children := children |}
                end;
        calls := calls st |}) /\
  length children = length (roots (world st)) /\
  Forall2 (fun r child => exists w1 w2,
             createWorkspaceRoot r (WorkspaceNode_createRoot []) w1 = (Fulfilled child, w2))
    (roots (world st)) children.
Proof.
  intros Hc. split; [| split].
  - unfold updateRoot, createRoot. unfold bind at 1. unfold bind at 1. unfold read.
    destruct (roots (world st)) as [| r rest] eqn:Hroots.
    + inversion Hc; subst. simpl. unfold set_root, ret. simpl. reflexivity.
    + change (0 <? length (r :: rest))%nat with true. cbv iota.
      unfold bind at 1.
      rewrite (createChildren_fulfils _ st (r :: rest) children w' Hc).
      reflexivity.
  - apply CreatesChildren_pairs in Hc. symmetry. eapply Forall2_length. exact Hc.
  - eapply CreatesChildren_pairs. exact Hc.
Qed.

(** *** [move] *)

Lemma move_delegates (st : State) source target :
  node_parent (world st) source = None \/ WorkspaceRootNode_is (world st) source = false ->
  move source target st =
    invoke (CallSuperMove source target) (super_move source target) st.
Proof.
  intros H. unfold move, bind, read.
  destruct H as [H | H]; rewrite H.
  - rewrite bool_decide_eq_false_2; [reflexivity |]. intros [? ?]. discriminate.
  - rewrite andb_false_r. reflexivity.
Qed.

(** C7. When [source] is a workspace root node with a defined parent,
    [move(source, target)] returns without delegating to the generic tree
    move: no call is made and the state is left as it was, whatever the
    target. *)
Theorem move_root_folder_is_noop (st : State) source target p :
  node_parent (world st) source = Some p ->
  WorkspaceRootNode_is (world st) source = true ->
  move source target st = (Resolved tt, st).
Proof.
  intros Hp Hr. unfold move, bind, read. rewrite Hp, Hr.
  rewrite bool_decide_eq_true_2; [reflexivity | now exists p].
Qed.

(** *** [revealFile] *)

Lemma invoke_never_pending {A} c (call : W -> settled A * W) (st : State) :
  is_pending (fst (invoke c call st)) = false.
Proof. unfold invoke. destruct (call (world st)) as [[a | e] w']; reflexivity. Qed.

Lemma expandIfCollapsed_expanded (st : State) n :
  node_expanded (world st) n = true -> expandIfCollapsed n st = (Resolved tt, st).
Proof. intros He. unfold expandIfCollapsed, bind, read. now rewrite He. Qed.

Lemma expandIfCollapsed_collapsed (st : State) n :
  node_expanded (world st) n = false ->
  expandIfCollapsed n st = invoke (CallExpandNode n) (expandNode n) st.
Proof. intros He. unfold expandIfCollapsed, bind, read. now rewrite He. Qed.

Lemma expandIfCollapsed_never_pending (st : State) n :
  is_pending (fst (expandIfCollapsed n st)) = false.
Proof.
  destruct (node_expanded (world st) n) eqn:He.
  - now rewrite expandIfCollapsed_expanded.
  - rewrite expandIfCollapsed_collapsed by assumption. apply invoke_never_pending.
Qed.

(** The three parts of [revealFile] run from a state [st]. *)
Lemma revealAfterParent_run navigatorNodeId node (st : State) :
  revealAfterParent navigatorNodeId node st =
  match (match node with
         | None => getNodeClosestToRootByUri (world st) navigatorNodeId
         | Some _ => node
         end) with
  | Some n =>
      if ExpandableTreeNode_is (world st) n
      then bind (expandIfCollapsed n) (fun _ => ret (Some n)) st
      else (Resolved (Some n), st)
  | None => (Resolved None, st)
  end.
Proof.
  unfold revealAfterParent.
  destruct node as [n |]; unfold bind at 1; unfold read, ret; cbv beta iota.
  - unfold bind at 1. cbv beta iota.
    destruct (ExpandableTreeNode_is (world st) n); reflexivity.
  - destruct (getNodeClosestToRootByUri (world st) navigatorNodeId) as [n |];
      [| reflexivity].
    unfold bind at 1. cbv beta iota.
    destruct (ExpandableTreeNode_is (world st) n); reflexivity.
Qed.

Lemma revealBelow_run (self : URI -> Promise State (option Node)) u node st :
  revealBelow self u node st =
  if isRoot u then (Resolved None, st)
  else match self (parent u) st with
       | (Resolved (Some _), st') => revealAfterParent (toString u) node st'
       | (Resolved None, st') => (Resolved None, st')
       | (Rejected e, st') => (Rejected e, st')
       | (Pending, st') => (Pending, st')
       end.
Proof.
  unfold revealBelow. destruct (isRoot u); [reflexivity |].
  unfold bind. destruct (self (parent u) st) as [[[m |] | e |] st']; reflexivity.
Qed.

Lemma revealFile_body_run (self : URI -> Promise State (option Node)) u st :
  revealFile_body self u st =
  if negb (String.eqb (scheme u) "file") then (Resolved None, st)
  else match getNodeClosestToRootByUri (world st) (toString u) with
       | Some n =>
           if WorkspaceRootNode_is (world st) n then
             if ExpandableTreeNode_is (world st) n
             then bind (expandIfCollapsed n) (fun _ => ret (Some n)) st
             else (Resolved None, st)
           else revealBelow self u (Some n) st
       | None => revealBelow self u None st
       end.
Proof.
  unfold revealFile_body.
  destruct (negb (String.eqb (scheme u) "file")); [reflexivity |].
  unfold bind at 1. unfold read at 1. cbv beta iota.
  unfold bind at 1. unfold read at 1. cbv beta iota.
  destruct (getNodeClosestToRootByUri (world st) (toString u)) as [n |];
    [| reflexivity].
  destruct (WorkspaceRootNode_is (world st) n); [| reflexivity].
  destruct (ExpandableTreeNode_is (world st) n); reflexivity.
Qed.

Lemma expand_then_return_never_pending (st : State) n :
  is_pending (fst (bind (expandIfCollapsed n) (fun _ => ret (Some n)) st)) = false.
Proof.
  unfold bind. pose proof (expandIfCollapsed_never_pending st n) as Hp.
  destruct (expandIfCollapsed n st) as [[[] | e |] st']; simpl in *; congruence.
Qed.

(** The body calls [revealFile] on the parent of its argument only, and
    only away from the filesystem root. *)
Lemma revealBelow_ext (self1 self2 : URI -> Promise State (option Node)) u node :
  (isRoot u = false -> forall st, self1 (parent u) st = self2 (parent u) st) ->
  forall st, revealBelow self1 u node st = revealBelow self2 u node st.
Proof.
  intros Hself st. rewrite !revealBelow_run.
  destruct (isRoot u); [reflexivity |]. now rewrite (Hself eq_refl st).
Qed.

Lemma revealFile_body_ext (self1 self2 : URI -> Promise State (option Node)) u :
  (isRoot u = false -> forall st, self1 (parent u) st = self2 (parent u) st) ->
  forall st, revealFile_body self1 u st = revealFile_body self2 u st.
Proof.
  intros Hself st. rewrite !revealFile_body_run.
  destruct (negb (String.eqb (scheme u) "file")); [reflexivity |].
  destruct (getNodeClosestToRootByUri (world st) (toString u)) as [n |].
  - destruct (WorkspaceRootNode_is (world st) n); [reflexivity |].
    now apply revealBelow_ext.
  - now apply revealBelow_ext.
Qed.

Lemma revealFile_body_base (self1 self2 : URI -> Promise State (option Node)) u st :
  isRoot u = true \/
  is_a WorkspaceRootNode_is (world st)
    (getNodeClosestToRootByUri (world st) (toString u)) = true ->
  revealFile_body self1 u st = revealFile_body self2 u st.
Proof.
  intros Hbase. rewrite !revealFile_body_run.
  destruct (negb (String.eqb (scheme u) "file")); [reflexivity |].
  destruct (getNodeClosestToRootByUri (world st) (toString u)) as [n |]; simpl in Hbase.
  - destruct (WorkspaceRootNode_is (world st) n); [reflexivity |].
    destruct Hbase as [Hroot | ?]; [| discriminate].
    rewrite !revealBelow_run. now rewrite Hroot.
  - destruct Hbase as [Hroot | ?]; [| discriminate].
    rewrite !revealBelow_run. now rewrite Hroot.
Qed.

Lemma revealAfterParent_never_pending navigatorNodeId node (st : State) :
  is_pending (fst (revealAfterParent navigatorNodeId node st)) = false.
Proof.
  rewrite revealAfterParent_run.
  destruct (match node with
            | None => getNodeClosestToRootByUri (world st) navigatorNodeId
            | Some _ => node
            end) as [n |]; [| reflexivity].
  destruct (ExpandableTreeNode_is (world st) n); [| reflexivity].
  apply expand_then_return_never_pending.
Qed.

Lemma revealBelow_never_pending (self : URI -> Promise State (option Node)) u node :
  (isRoot u = false -> forall st, is_pending (fst (self (parent u) st)) = false) ->
  forall st, is_pending (fst (revealBelow self u node st)) = false.
Proof.
  intros Hself st. rewrite revealBelow_run.
  destruct (isRoot u); [reflexivity |].
  specialize (Hself eq_refl st).
  destruct (self (parent u) st) as [[[m |] | e |] st']; simpl in *;
    try reflexivity; try discriminate.
  apply revealAfterParent_never_pending.
Qed.

Lemma revealFile_body_never_pending (self : URI -> Promise State (option Node)) u :
  (isRoot u = false -> forall st, is_pending (fst (self (parent u) st)) = false) ->
  forall st, is_pending (fst (revealFile_body self u st)) = false.
Proof.
  intros Hself st. rewrite revealFile_body_run.
  destruct (negb (String.eqb (scheme u) "file")); [reflexivity |].
  destruct (getNodeClosestToRootByUri (world st) (toString u)) as [n |].
  - destruct (WorkspaceRootNode_is (world st) n).
    + destruct (ExpandableTreeNode_is (world st) n); [| reflexivity].
      apply expand_then_return_never_pending.
    + now apply revealBelow_never_pending.
  - now apply revealBelow_never_pending.
Qed.

(** What the body returns at the two stop conditions and after the
    recursive call, in the cases the claims speak of. *)
Lemma revealFile_body_not_file (self : URI -> Promise State (option Node)) u st :
  scheme u <> "file" -> revealFile_body self u st = (Resolved None, st).
Proof.
  intros Hs. rewrite revealFile_body_run.
  destruct (String.eqb_spec (scheme u) "file") as [He | _]; [contradiction | reflexivity].
Qed.

Lemma revealFile_body_outside (self : URI -> Promise State (option Node)) u st :
  is_a WorkspaceRootNode_is (world st)
    (getNodeClosestToRootByUri (world st) (toString u)) = false ->
  isRoot u = true \/ self (parent u) st = (Resolved None, st) ->
  revealFile_body self u st = (Resolved None, st).
Proof.
  intros Hnot Hup. rewrite revealFile_body_run.
  destruct (negb (String.eqb (scheme u) "file")); [reflexivity |].
  assert (Hbelow : forall node, revealBelow self u node st = (Resolved None, st)).
  { intros node. rewrite revealBelow_run. destruct (isRoot u); [reflexivity |].
    destruct Hup as [? | Hself]; [discriminate |]. now rewrite Hself. }
  destruct (getNodeClosestToRootByUri (world st) (toString u)) as [n |];
    simpl in Hnot; [rewrite Hnot |]; apply Hbelow.
Qed.

Lemma revealFile_body_at_root (self : URI -> Promise State (option Node)) u n st :
  scheme u = "file" ->
  getNodeClosestToRootByUri (world st) (toString u) = Some n ->
  WorkspaceRootNode_is (world st) n = true ->
  ExpandableTreeNode_is (world st) n = true ->
  node_expanded (world st) n = true ->
  revealFile_body self u st = (Resolved (Some n), st).
Proof.
  intros Hs Hn Hr Hx He. rewrite revealFile_body_run.
  rewrite Hs, String.eqb_refl, Hn, Hr, Hx. simpl negb. cbv iota.
  unfold bind. now rewrite (expandIfCollapsed_expanded st n He).
Qed.

Lemma revealFile_body_below (self : URI -> Promise State (option Node)) u n m st :
  scheme u = "file" ->
  getNodeClosestToRootByUri (world st) (toString u) = Some n ->
  WorkspaceRootNode_is (world st) n = false ->
  isRoot u = false ->
  self (parent u) st = (Resolved (Some m), st) ->
  (ExpandableTreeNode_is (world st) n = true -> node_expanded (world st) n = true) ->
  revealFile_body self u st = (Resolved (Some n), st).
Proof.
  intros Hs Hn Hr Hroot Hself He. rewrite revealFile_body_run.
  rewrite Hs, String.eqb_refl, Hn, Hr. simpl negb. cbv iota.
  rewrite revealBelow_run, Hroot, Hself, revealAfterParent_run.
  destruct (ExpandableTreeNode_is (world st) n) eqn:Hx; [| reflexivity].
  unfold bind. now rewrite (expandIfCollapsed_expanded st n (He eq_refl)).
Qed.

(** With more fuel than path segments the fuel no longer matters. *)
Lemma revealFile_fuel_stable (laws : UriLaws URI) : forall fuel1 fuel2 u (st : State),
  segments u < fuel1 -> segments u < fuel2 ->
  revealFile_fuel fuel1 u st = revealFile_fuel fuel2 u st.
Proof.
  induction fuel1 as [| fuel1 IH]; intros fuel2 u st H1 H2; [lia |].
  destruct fuel2 as [| fuel2]; [lia |]. simpl.
  apply revealFile_body_ext. intros Hroot st'.
  pose proof (parent_shortens u Hroot). apply IH; lia.
Qed.

Lemma revealFile_fuel_enough (laws : UriLaws URI) fuel u (st : State) :
  segments u < fuel -> revealFile_fuel fuel u st = revealFile u st.
Proof. intros Hf. unfold revealFile. apply revealFile_fuel_stable; [exact laws | lia | lia]. Qed.

(** [revealFile] satisfies the recursive equation of the source. *)
Lemma revealFile_unfold (laws : UriLaws URI) u (st : State) :
  revealFile u st = revealFile_body revealFile u st.
Proof.
  unfold revealFile at 1. simpl. apply revealFile_body_ext. intros Hroot st'.
  apply revealFile_fuel_enough; [exact laws |]. now apply parent_shortens.
Qed.

Lemma revealFile_fuel_never_pending (laws : UriLaws URI) : forall fuel u (st : State),
  segments u < fuel -> is_pending (fst (revealFile_fuel fuel u st)) = false.
Proof.
  induction fuel as [| fuel IH]; intros u st Hf; [lia |]. simpl.
  apply revealFile_body_never_pending. intros Hroot st'.
  pose proof (parent_shortens u Hroot). apply IH. lia.
Qed.

(** C4. For a URI whose scheme is not [file], [revealFile] returns
    [undefined] at once: the promise resolves (no error is raised), nothing
    is looked up or expanded, and the state is left as it was, whatever the
    workspace holds. *)
Theorem revealFile_non_file_scheme (u : URI) (st : State) :
  scheme u <> "file" -> revealFile u st = (Resolved None, st).
Proof. intros Hs. unfold revealFile. simpl. now apply revealFile_body_not_file. Qed.

(** C5. When the walk from a URI up its parents reaches the filesystem
    root ([d] steps up) and none of the URIs on the way resolves to a
    workspace root node, every call of the recursion, from the one at the
    filesystem root back to the first, returns [undefined], and the state
    is left as it was. *)
Theorem revealFile_outside_workspace (laws : UriLaws URI) (u : URI) (st : State) (d : nat) :
  isRoot (ancestor d u) = true ->
  (forall k, k <= d ->
     is_a WorkspaceRootNode_is (world st)
       (getNodeClosestToRootByUri (world st) (toString (ancestor k u))) = false) ->
  forall k, k <= d -> revealFile (ancestor k u) st = (Resolved None, st).
Proof.
  intros Hroot Hout.
  assert (Hup : forall j k, k + j = d -> revealFile (ancestor k u) st = (Resolved None, st)).
  { induction j as [| j IH]; intros k Hk.
    - rewrite revealFile_unfold by exact laws.
      apply revealFile_body_outside; [apply Hout; lia |].
      left. replace k with d by lia. exact Hroot.
    - rewrite revealFile_unfold by exact laws.
      apply revealFile_body_outside; [apply Hout; lia |].
      right. rewrite <- ancestor_succ. apply IH. lia. }
  intros k Hk. apply (Hup (d - k)). lia.
Qed.

(** C6, amended.  On a path that is already revealed ([Revealed]: the node
    of the URI is mounted, every node from the workspace root down to it is
    mounted, and each of them that is expandable, the node itself included,
    is expanded) [revealFile] is a pure lookup: it returns that node, makes
    no call to [expandNode] and leaves the state as it was; so does a
    second call. *)
Theorem revealFile_pure_lookup (laws : UriLaws URI) (u : URI) (n : Node) (st : State) :
  Revealed (world st) u n ->
  revealFile u st = (Resolved (Some n), st) /\
  bind (revealFile u) (fun _ => revealFile u) st = (Resolved (Some n), st).
Proof.
  intros Hrev.
  assert (Hone : revealFile u st = (Resolved (Some n), st)).
  { induction Hrev as [u n Hs Hn Hr Hx He | u n m Hs Hn Hr Hroot Hparent IH He].
    - rewrite revealFile_unfold by exact laws. now apply revealFile_body_at_root.
    - rewrite revealFile_unfold by exact laws.
      now apply (revealFile_body_below revealFile u n m). }
  split; [exact Hone |].
  now rewrite (bind_resolved _ _ _ _ _ Hone).
Qed.

(** *** [collectAffectedNodes] *)

Lemma isFileContentChanged_true (w : W) (change : FileChange URI) :
  isFileContentChanged w change = true <->
  change_type change = UPDATED /\
  exists root0 others n,
    tryGetRoots w = root0 :: others /\
    getNode w (WorkspaceRootNode_createId (stat_uri root0) (toString (change_uri change)))
      = Some n /\
    FileNode_is w n = true.
Proof.
  unfold isFileContentChanged. split.
  - destruct (tryGetRoots w) as [| root0 others]; [discriminate |].
    intros H. apply andb_prop in H as [Ht Hn].
    split; [now destruct (change_type change) |].
    destruct (getNode w _) as [n |] eqn:Hg; [| discriminate].
    now exists root0, others, n.
  - intros (Ht & root0 & others & n & Hroots & Hg & Hf).
    rewrite Hroots, Hg, Ht. simpl. exact Hf.
Qed.

Lemma collectAffectedNodes_content_change {A} (w : W) (change : FileChange URI)
  (accept : Node -> A -> A) (acc : A) :
  isFileContentChanged w change = true ->
  collectAffectedNodes change accept w acc = acc.
Proof. intros H. unfold collectAffectedNodes. now rewrite H. Qed.

(** In every other case the callback is invoked on the mounted nodes of the
    parent URI that are expanded directories, in the order of the roots. *)
Lemma collectAffectedNodes_structural_change {A} (w : W) (change : FileChange URI)
  (accept : Node -> A -> A) (acc : A) :
  isFileContentChanged w change = false ->
  collectAffectedNodes change accept w acc =
  fold_left (fun acc parentNode => accept parentNode acc)
    (List.filter (fun parentNode => DirNode_is w parentNode && node_expanded w parentNode)
       (getNodesByUri w (toString (parent (change_uri change)))))
    acc.
Proof.
  intros H. unfold collectAffectedNodes. rewrite H.
  generalize (getNodesByUri w (toString (parent (change_uri change)))) as nodes.
  intros nodes. revert acc. induction nodes as [| x nodes IH]; intros acc; simpl.
  - reflexivity.
  - destruct (DirNode_is w x && node_expanded w x); simpl; apply IH.
Qed.

End Model.

(** *** Termination of [revealFile] on path URIs *)
Section PathUris.
Context {W FileStat Node C : Type}.
Context `{!WorkspaceService W FileStat, !TreeModel W Node, !NavigatorTree W FileStat C}.

(** C10. [revealFile] terminates on every URI: its promise settles; the
    function satisfies the recursive equation of the source, in which the
    only recursive call is on the parent and is not reached at the stop
    conditions (a resolved workspace root node, the filesystem root); below
    the filesystem root the parent has strictly fewer path segments and the
    chain of parents never comes back to the URI; and a recursion depth of
    one more than the number of path segments is never exceeded. *)
Theorem revealFile_terminates (u : PathUri) (st : St W Node C) :
  is_pending (fst (revealFile u st)) = false /\
  revealFile u st = revealFile_body revealFile u st /\
  (forall self1 self2 : PathUri -> Promise (St W Node C) (option Node),
     (isRoot u = false -> forall st', self1 (parent u) st' = self2 (parent u) st') ->
     revealFile_body self1 u st = revealFile_body self2 u st) /\
  (forall self1 self2 : PathUri -> Promise (St W Node C) (option Node),
     isRoot u = true \/
     is_a WorkspaceRootNode_is (world st)
       (getNodeClosestToRootByUri (world st) (toString u)) = true ->
     revealFile_body self1 u st = revealFile_body self2 u st) /\
  (isRoot u = false -> length (pu_path (parent u)) < length (pu_path u)) /\
  (isRoot u = false -> forall k, 0 < k -> ancestor k u <> u) /\
  (forall fuel, length (pu_path u) < fuel -> revealFile_fuel fuel u st = revealFile u st).
Proof.
  split; [| split; [| split; [| split; [| split; [| split]]]]].
  - unfold revealFile. apply revealFile_fuel_never_pending; [exact pathUriLaws | lia].
  - apply revealFile_unfold. exact pathUriLaws.
  - intros self1 self2 Hself. now apply revealFile_body_ext.
  - intros self1 self2 Hbase. now apply revealFile_body_base.
  - intros Hroot. exact (parent_shortens u Hroot).
  - intros Hroot k Hk. now apply pathUri_acyclic.
  - intros fuel Hf. apply revealFile_fuel_enough; [exact pathUriLaws | exact Hf].
Qed.

End PathUris.

(** *** The code on concrete trees *)

Import Toy.

Lemma oneRoot_ws_revealed : Revealed oneRoot (file_uri ["ws"]) ws_id.
Proof. apply revealed_root; vm_compute; reflexivity. Qed.

Lemma updateRoot_sets_root_witness :
  updateRoot (start twoRoots) =
    (Resolved tt,
     {| Navigator.world := twoRoots;
        root := Some {| children := [root_a_id; root_b_id] |};
        calls := [] |}) /\
  length [root_a_id; root_b_id] = 2 /\
  Forall2 (fun r child => exists w1 w2 : ToyWorld,
             createWorkspaceRoot r (WorkspaceNode_createRoot []) w1 = (Fulfilled child, w2))
    ["file:///a"; "file:///b"] [root_a_id; root_b_id].
Proof.
  refine (updateRoot_sets_root (FileStat := string) (start twoRoots)
            [root_a_id; root_b_id] twoRoots _).
  apply (creates_next _ twoRoots "file:///a" root_a_id twoRoots); [reflexivity |].
  apply (creates_next _ twoRoots "file:///b" root_b_id twoRoots); [reflexivity |].
  apply creates_none.
Defined.

Lemma move_root_folder_is_noop_witness :
  move ws_id ws_a_id (start oneRoot) = (Resolved tt, start oneRoot).
Proof.
  apply (move_root_folder_is_noop (start oneRoot) ws_id ws_a_id "WorkspaceNode");
    vm_compute; reflexivity.
Defined.

Lemma revealFile_non_file_scheme_witness :
  revealFile http_uri (start oneRoot) = (Resolved None, start oneRoot).
Proof.
  apply (revealFile_non_file_scheme http_uri (start oneRoot)).
  simpl. discriminate.
Defined.

Lemma revealFile_outside_workspace_witness :
  revealFile outside_uri (start oneRoot) = (Resolved None, start oneRoot) /\
  revealFile (parent outside_uri) (start oneRoot) = (Resolved None, start oneRoot) /\
  revealFile (parent (parent outside_uri)) (start oneRoot) = (Resolved None, start oneRoot).
Proof.
  assert (H : forall k, k <= 2 ->
            revealFile (ancestor k outside_uri) (start oneRoot) =
            (Resolved None, start oneRoot)).
  { apply (revealFile_outside_workspace pathUriLaws outside_uri (start oneRoot) 2).
    - reflexivity.
    - intros k Hk. destruct k as [| [| [| k]]]; [vm_compute; reflexivity .. | lia]. }
  split; [| split].
  - apply (H 0). lia.
  - apply (H 1). lia.
  - apply (H 2). lia.
Defined.

Lemma revealFile_pure_lookup_witness :
  revealFile ws_f_uri (start oneRoot) = (Resolved (Some ws_f_id), start oneRoot) /\
  bind (revealFile ws_f_uri) (fun _ => revealFile ws_f_uri) (start oneRoot) =
    (Resolved (Some ws_f_id), start oneRoot).
Proof.
  apply (revealFile_pure_lookup pathUriLaws ws_f_uri ws_f_id (start oneRoot)).
  apply (revealed_below _ ws_f_uri ws_f_id ws_id).
  - reflexivity.
  - vm_compute; reflexivity.
  - vm_compute; reflexivity.
  - reflexivity.
  - exact oneRoot_ws_revealed.
  - intros Hx. vm_compute in Hx. discriminate Hx.
Defined.

(** C6 as stated fails: every ancestor directory of [file:///ws/a] is
    mounted and expanded, yet [revealFile] expands the node of the URI
    itself, a collapsed directory, so the state changes. *)
Lemma revealFile_expands_collapsed_target :
  AncestorsRevealed oneRoot ws_a_uri ws_a_id /\
  fst (revealFile ws_a_uri (start oneRoot)) = Resolved (Some ws_a_id) /\
  calls (snd (revealFile ws_a_uri (start oneRoot))) = [CallExpandNode ws_a_id] /\
  snd (revealFile ws_a_uri (start oneRoot)) <> start oneRoot.
Proof.
  split; [| split; [| split]].
  - unfold AncestorsRevealed. repeat split; try (vm_compute; reflexivity).
    exists ws_id. exact oneRoot_ws_revealed.
  - vm_compute; reflexivity.
  - vm_compute; reflexivity.
  - intros Heq. apply (f_equal calls) in Heq. vm_compute in Heq. discriminate Heq.
Qed.

(** C8, the code at an input where it departs from the claim.  The
    workspace has two roots; [file:///b/f.txt] is mounted as a file node
    under the second; the change is an UPDATED of that file.
    [isFileContentChanged] builds the node id from the first root only, finds
    no node, and the callback is invoked once, on the second root's node. *)
Theorem collectAffectedNodes_update_under_second_root :
  getNode twoRoots b_f_id = Some b_f_id /\
  FileNode_is twoRoots b_f_id = true /\
  b_f_id = WorkspaceRootNode_createId "file:///b" (toString (change_uri b_f_updated)) /\
  isFileContentChanged twoRoots b_f_updated = false /\
  collectAffectedNodes b_f_updated (fun node acc => acc ++ [node]) twoRoots [] =
    [root_b_id].
Proof. repeat split; vm_compute; reflexivity. Qed.

(** With the same file under the only (hence the first) root, the callback
    is not invoked. *)
Example collectAffectedNodes_update_under_first_root :
  collectAffectedNodes
    {| change_uri := ws_f_uri; change_type := UPDATED |}
    (fun node acc => acc ++ [node]) oneRoot [] = [].
Proof. vm_compute; reflexivity. Qed.

(** A CREATED change under an expanded parent: one invocation, with the
    parent. *)
Example collectAffectedNodes_created :
  collectAffectedNodes
    {| change_uri := file_uri ["ws"; "new.txt"]; change_type := CREATED |}
    (fun node acc => acc ++ [node]) oneRoot [] = [ws_id].
Proof. vm_compute; reflexivity. Qed.

(** Without workspace roots the tree has no root. *)
Example updateRoot_without_roots :
  updateRoot (start noRoots) = (Resolved tt, start noRoots).
Proof. reflexivity. Qed.

(** With overlapping roots both yield a candidate for [file:///ws/a]; the
    longer id, that of the nested root, wins. *)
Example getNodeClosestToRootByUri_nested :
  getNodesByUri nestedRoots "file:///ws/a" = [ws_a_id; nested_a_id] /\
  getNodeClosestToRootByUri nestedRoots "file:///ws/a" = Some nested_a_id /\
  getNodeClosestToRootByUri nestedRoots "file:///nowhere" = None.
Proof. repeat split; vm_compute; reflexivity. Qed.

(** Revealing a file below the collapsed directory expands that directory,
    which mounts the file; a second call then finds everything in place. *)
Example revealFile_mounts_then_looks_up :
  let u := file_uri ["ws"; "a"; "x.txt"] in
  let st1 := snd (revealFile u (start oneRoot)) in
  fst (revealFile u (start oneRoot)) = Resolved (Some ws_a_x_id) /\
  calls st1 = [CallExpandNode ws_a_id] /\
  fst (revealFile u st1) = Resolved (Some ws_a_x_id) /\
  calls (snd (revealFile u st1)) = calls st1.
Proof. repeat split; vm_compute; reflexivity. Qed.

End NavigatorFacts.

(** ** More on the dialog bridge *)
Module DialogsMore.

Import Dialogs DialogFailures AsyncFacts DialogsFacts.

Section Bridge.
Context {W FileStat URI RootNode Dialog Selection : Type}.
Context `{!Services W FileStat URI RootNode Dialog Selection}.

Lemma with_world_twice (st : St W) w1 w2 :
  with_world (with_world st w1) w2 = with_world st w2.
Proof. reflexivity. Qed.

(** Lines 54-56 when they yield no stat. *)
Lemma skip_default options (st : St W) w1
  (k : option FileStat -> Promise (St W) FileStat) :
  DefaultSkipped options (world st) w1 ->
  bind (match truthy_string (defaultUri options) with
        | Some uri => call (getFileStat uri)
        | None => ret None
        end) k st = k None (with_world st w1).
Proof.
  intros [Hg | uri w1' Hg Hs]; rewrite Hg.
  - rewrite bind_ret. now rewrite with_world_same.
  - now rewrite (bind_resolved _ _ _ _ _ (call_fulfilled _ _ _ _ Hs)).
Qed.

Lemma resolveRootStat_fails options (st : St W) e w' :
  ResolutionFails options (world st) e w' ->
  resolveRootStat options st = (Rejected e, with_world st w').
Proof.
  intros Hf. unfold resolveRootStat.
  destruct Hf as [uri e w1 Hg Hs | w1 e w2 Hd Hr | w1 w2 e w3 Hd Hr Hh].
  - rewrite Hg. now rewrite (bind_rejected _ _ _ _ _ (call_failed _ _ _ _ Hs)).
  - rewrite (skip_default _ _ _ _ Hd).
    unfold bind at 1. unfold bind at 1.
    now rewrite (call_failed roots (with_world st w1) _ _ Hr).
  - rewrite (skip_default _ _ _ _ Hd).
    unfold bind at 1. unfold bind at 1.
    rewrite (call_fulfilled roots (with_world st w1) _ _ Hr). simpl.
    now rewrite (bind_rejected _ _ _ _ _
                   (call_failed getCurrentUserHome (with_world (with_world st w1) w2) _ _ Hh)).
Qed.

(** Every run of lines 51-71 is one of the root choices or one of the
    service failures. *)
Lemma resolveRootStat_outcome options (st : St W) :
  exists w',
    (exists r, RootChoice options (world st) r w' /\
               resolveRootStat options st = (of_settled r, with_world st w')) \/
    (exists e, ResolutionFails options (world st) e w' /\
               resolveRootStat options st = (Rejected e, with_world st w')).
Proof.
  assert (Hchoice : forall r w', RootChoice options (world st) r w' ->
            exists w', (exists r, RootChoice options (world st) r w' /\
                          resolveRootStat options st = (of_settled r, with_world st w')) \/
                       (exists e, ResolutionFails options (world st) e w' /\
                          resolveRootStat options st = (Rejected e, with_world st w'))).
  { intros r w' Hc. exists w'. left. exists r. split; [exact Hc |].
    now apply resolveRootStat_follows_precedence. }
  assert (Hfail : forall e w', ResolutionFails options (world st) e w' ->
            exists w', (exists r, RootChoice options (world st) r w' /\
                          resolveRootStat options st = (of_settled r, with_world st w')) \/
                       (exists e, ResolutionFails options (world st) e w' /\
                          resolveRootStat options st = (Rejected e, with_world st w'))).
  { intros e w' Hf. exists w'. right. exists e. split; [exact Hf |].
    now apply resolveRootStat_fails. }
  assert (Hskipped : forall w1, DefaultSkipped options (world st) w1 ->
            exists w', (exists r, RootChoice options (world st) r w' /\
                          resolveRootStat options st = (of_settled r, with_world st w')) \/
                       (exists e, ResolutionFails options (world st) e w' /\
                          resolveRootStat options st = (Rejected e, with_world st w'))).
  { intros w1 Hd.
    destruct (roots w1) as [[[| rootStat others] | e] w2] eqn:Hr.
    - destruct (getCurrentUserHome w2) as [[[rootStat |] | e] w3] eqn:Hh.
      + eapply Hchoice, choose_home; eassumption.
      + eapply Hchoice, choose_nothing; eassumption.
      + eapply Hfail, home_fails; eassumption.
    - eapply Hchoice, choose_workspace_root; eassumption.
    - eapply Hfail, roots_fail; eassumption. }
  destruct (truthy_string (defaultUri options)) as [uri |] eqn:Hg.
  - destruct (getFileStat uri (world st)) as [[[rootStat |] | e] w1] eqn:Hs.
    + eapply Hchoice, choose_default; eassumption.
    + eapply Hskipped, default_without_stat; eassumption.
    + eapply Hfail, stat_fails; eassumption.
  - apply (Hskipped (world st)). now apply default_not_given.
Qed.

Lemma showOpenDialogAt_label_fails options rootStat (st : St W) e w' :
  LabelFails rootStat (world st) e w' ->
  showOpenDialogAt options rootStat st = (Rejected e, with_world st w').
Proof.
  intros [e' w1 Hn | name w1 e' w2 Hn Hi]; unfold showOpenDialogAt.
  - now rewrite (bind_rejected _ _ _ _ _ (call_failed _ _ _ _ Hn)).
  - rewrite (bind_resolved _ _ _ _ _ (call_fulfilled _ _ _ _ Hn)).
    now rewrite (bind_rejected _ _ _ _ _
                   (call_failed (getIcon _) (with_world st w1) _ _ Hi)).
Qed.

(** Lines 73-120 either fail at the label provider or reach the [try]
    block, which resolves. *)
Lemma showOpenDialogAt_outcome options rootStat (st : St W) :
  (exists e w', LabelFails rootStat (world st) e w' /\
                showOpenDialogAt options rootStat st = (Rejected e, with_world st w')) \/
  (exists name icon w3 result st1,
     showOpenDialogAt options rootStat st = (Resolved result, st1) /\
     TryBlockResult options (DirNode_createRoot rootStat name icon)
       (with_world st w3) result st1).
Proof.
  destruct (getName (new_URI (stat_uri rootStat)) (world st)) as [[name | e] w1] eqn:Hn.
  2: { left. exists e, w1. split; [now apply name_fails |].
       apply showOpenDialogAt_label_fails. now apply name_fails. }
  destruct (getIcon (new_URI (stat_uri rootStat)) w1) as [[icon | e] w2] eqn:Hi.
  2: { left. exists e, w2. split; [now apply (icon_fails _ _ name w1) |].
       apply showOpenDialogAt_label_fails. now apply (icon_fails _ _ name w1). }
  right. unfold showOpenDialogAt.
  rewrite (bind_resolved _ _ _ _ _ (call_fulfilled _ _ _ _ Hn)).
  rewrite (bind_resolved _ _ _ _ _ (call_fulfilled (getIcon _) (with_world st w1) _ _ Hi)).
  destruct (openDialog_never_rejects options (DirNode_createRoot rootStat name icon)
              (with_world (with_world st w1) w2)) as (result & st1 & Hrun & Htry).
  exists name, icon, w2, result, st1. split; [exact Hrun | exact Htry].
Qed.

(** X1. [$showOpenDialog] rejects exactly when lines 51-77 throw: no root
    is found, or the file system, the workspace service or the label
    provider fails while being consulted there; the error is the one
    thrown, and a failing [getFileStat] is not a miss: the workspace roots
    and the home are not tried after it. *)
Theorem showOpenDialog_rejects_iff options (st : St W) e st' :
  showOpenDialog options st = (Rejected e, st') <->
  exists w', st' = with_world st w' /\ FailsBeforeTry options (world st) e w'.
Proof.
  split.
  - intros Hrun. unfold showOpenDialog in Hrun.
    destruct (resolveRootStat_outcome options st)
      as (w1 & [(r & Hc & Hres) | (e1 & Hf & Hres)]).
    + destruct r as [rootStat | e1]; simpl in Hres.
      * rewrite (bind_resolved _ _ _ _ _ Hres) in Hrun.
        destruct (showOpenDialogAt_outcome options rootStat (with_world st w1))
          as [(e2 & w2 & Hl & Hat) | (name & icon & w3 & result & st1 & Hat & _)];
          rewrite Hat in Hrun; [| discriminate].
        injection Hrun as <- <-. exists w2. split; [reflexivity |].
        now apply (label_fails _ _ rootStat w1).
      * rewrite (bind_rejected _ _ _ _ _ Hres) in Hrun.
        injection Hrun as <- <-. exists w1. split; [reflexivity |].
        now apply no_root.
    + rewrite (bind_rejected _ _ _ _ _ Hres) in Hrun.
      injection Hrun as <- <-. exists w1. split; [reflexivity |].
      now apply resolution_fails.
  - intros (w' & -> & Hf). unfold showOpenDialog.
    destruct Hf as [e w' Hc | e w' Hf | rootStat w1 e w' Hc Hl].
    + now rewrite (bind_rejected _ _ _ _ _
                     (resolveRootStat_follows_precedence options st _ _ Hc)).
    + now rewrite (bind_rejected _ _ _ _ _ (resolveRootStat_fails options st _ _ Hf)).
    + rewrite (bind_resolved _ _ _ _ _
                 (resolveRootStat_follows_precedence options st _ _ Hc)).
      now rewrite (showOpenDialogAt_label_fails options rootStat (with_world st w1) e w' Hl).
Qed.

(** X2. [$showOpenDialog] always settles, and the console tells how: it
    resolves with [undefined] exactly when it has logged one error (and
    then only one); when it resolves with paths or rejects, nothing is
    logged. *)
Theorem showOpenDialog_console options (st : St W) :
  match showOpenDialog options st with
  | (Resolved None, st') => exists e, console st' = console st ++ [e]
  | (Resolved (Some _), st') => console st' = console st
  | (Rejected _, st') => console st' = console st
  | (Pending, _) => False
  end.
Proof.
  unfold showOpenDialog.
  destruct (resolveRootStat_outcome options st)
    as (w1 & [(r & Hc & Hres) | (e1 & Hf & Hres)]).
  - destruct r as [rootStat | e1]; simpl in Hres.
    + rewrite (bind_resolved _ _ _ _ _ Hres).
      destruct (showOpenDialogAt_outcome options rootStat (with_world st w1))
        as [(e2 & w2 & Hl & Hat) | (name & icon & w3 & result & st1 & Hat & Htry)];
        rewrite Hat; [reflexivity |].
      destruct result as [paths |]; simpl in Htry.
      * now destruct Htry as [Hcons _].
      * exact Htry.
    + now rewrite (bind_rejected _ _ _ _ _ Hres).
  - now rewrite (bind_rejected _ _ _ _ _ Hres).
Qed.

(** X3. The title of the dialog.  An absent flag counts as [true].  The
    title is [Open] when neither files nor folders are excluded, whatever
    [canSelectMany] says; [Open File] when only folders are excluded;
    [Open Folder] whenever files are excluded, also when folders are
    excluded too; in the last two cases [(s)] is appended exactly when
    [canSelectMany] is [true]. *)
Theorem dialogTitle_table (options : OpenDialogOptionsMain) :
  let many := match canSelectMany options with Some true => true | _ => false end in
  (canSelectFiles options <> Some false -> canSelectFolders options <> Some false ->
   dialogTitle options = "Open") /\
  (canSelectFiles options <> Some false -> canSelectFolders options = Some false ->
   dialogTitle options = if many then "Open File(s)" else "Open File") /\
  (canSelectFiles options = Some false ->
   dialogTitle options = if many then "Open Folder(s)" else "Open Folder").
Proof.
  destruct options as [d l [[|] |] [[|] |] [[|] |] f]; unfold dialogTitle; simpl;
    repeat split; intros; try reflexivity; congruence.
Qed.

End Bridge.

Import Toy MoreToy.

Lemma dialogTitle_table_witness :
  dialogTitle {| defaultUri := None; openLabel := None; canSelectFiles := Some false;
                 canSelectFolders := Some false; canSelectMany := Some true;
                 filters := None |} = "Open Folder(s)".
Proof.
  refine (proj2 (proj2 (dialogTitle_table
    {| defaultUri := None; openLabel := None; canSelectFiles := Some false;
       canSelectFolders := Some false; canSelectMany := Some true;
       filters := None |})) _).
  reflexivity.
Defined.

(** A denied stat rejects the call although a workspace root and a home
    are at hand; a failing dialog is logged and gives [undefined]. *)
Example showOpenDialog_denied_stat :
  @showOpenDialog _ _ _ _ _ _ strictDeskServices (options_at "file:///denied")
    (desk_start fullDesk) = (Rejected (Error "EACCES"), desk_start fullDesk).
Proof. reflexivity. Qed.

Example showOpenDialog_broken_dialog :
  let r := showOpenDialog no_options (desk_start brokenDialogDesk) in
  fst r = Resolved None /\ console (snd r) = [Error "dialog failed"].
Proof. split; reflexivity. Qed.

End DialogsMore.

(** ** More on the navigator model *)
Module NavigatorMore.

Import Navigator AsyncFacts UriFacts NavigatorFacts.

Section Model.
Context {W FileStat Node C URI : Type}.
Context `{!WorkspaceService W FileStat, !TreeModel W Node,
          !NavigatorTree W FileStat C, !UriApi URI}.

Abbreviation State := (St W Node C).

(** *** [getNodesByUri] and [getNodeClosestToRootByUri] *)

Lemma omap_no_longer {A B} (f : A -> option B) (l : list A) :
  length (omap f l) <= length l.
Proof.
  induction l as [| a l IH]; cbn; [lia |].
  destruct (f a); cbn; lia.
Qed.

(** X4. [getNodesByUri] returns exactly the mounted nodes found under the
    id that some workspace root gives to the URI; there are at most as
    many as roots, and none in a workspace without roots. *)
Theorem getNodesByUri_candidates (w : W) (uri : string) :
  (forall n, n ∈ getNodesByUri w uri <->
     exists r, r ∈ roots w /\
               getNode w (WorkspaceRootNode_createId (stat_uri r) uri) = Some n) /\
  length (getNodesByUri w uri) <= length (roots w) /\
  (roots w = [] -> getNodesByUri w uri = []).
Proof.
  rewrite getNodesByUri_in_root_order. split; [| split].
  - intros n. apply list_elem_of_omap.
  - apply omap_no_longer.
  - intros Hr. now rewrite Hr.
Qed.

(** X5. In a workspace with a single root, [getNodeClosestToRootByUri] is
    the lookup of the id the root gives to the URI. *)
Theorem getNodeClosestToRootByUri_single_root (w : W) (uri : string) r :
  roots w = [r] ->
  getNodeClosestToRootByUri w uri =
  getNode w (WorkspaceRootNode_createId (stat_uri r) uri).
Proof.
  intros Hr. unfold getNodeClosestToRootByUri.
  rewrite getNodesByUri_in_root_order, Hr. simpl.
  destruct (getNode w _) as [n |]; reflexivity.
Qed.

(** *** [isFileContentChanged] and [collectAffectedNodes] *)

(** X6. [isFileContentChanged] holds exactly for an UPDATED change whose
    URI, under the id given by the first root of [tryGetRoots()], is a
    mounted file node; it is false without roots and for any other kind of
    change, and the roots after the first play no part. *)
Theorem isFileContentChanged_first_root_only (w : W) (change : FileChange URI) :
  (isFileContentChanged w change = true <->
   change_type change = UPDATED /\
   exists root0 others n,
     tryGetRoots w = root0 :: others /\
     getNode w (WorkspaceRootNode_createId (stat_uri root0) (toString (change_uri change)))
       = Some n /\
     FileNode_is w n = true) /\
  (tryGetRoots w = [] -> isFileContentChanged w change = false) /\
  (change_type change <> UPDATED -> isFileContentChanged w change = false).
Proof.
  unfold isFileContentChanged. split; [| split].
  - split.
    + destruct (tryGetRoots w) as [| root0 others]; [discriminate |].
      intros H. apply andb_prop in H as [Ht Hn].
      split; [now destruct (change_type change) |].
      destruct (getNode w _) as [n |] eqn:Hg; [| discriminate].
      now exists root0, others, n.
    + intros (Ht & root0 & others & n & Hroots & Hg & Hf).
      rewrite Hroots, Hg, Ht. exact Hf.
  - intros Hr. now rewrite Hr.
  - intros Ht. destruct (tryGetRoots w); [reflexivity |].
    destruct (change_type change); [contradiction | reflexivity | reflexivity].
Qed.

Lemma filter_no_longer {A} (f : A -> bool) (l : list A) :
  length (List.filter f l) <= length l.
Proof.
  induction l as [| a l IH]; simpl; [lia |].
  destruct (f a); simpl; lia.
Qed.

(** X7. For a change that is not a content change, [collectAffectedNodes]
    invokes the callback on the nodes of the parent URI that are expanded
    directories, once each and in the order of the workspace roots, and on
    nothing else: at most once per root. *)
Theorem collectAffectedNodes_invocations (w : W) (change : FileChange URI) :
  isFileContentChanged w change = false ->
  let affected :=
    List.filter (fun parentNode => DirNode_is w parentNode && node_expanded w parentNode)
      (getNodesByUri w (toString (parent (change_uri change)))) in
  (forall A (accept : Node -> A -> A) (acc : A),
     collectAffectedNodes change accept w acc =
     fold_left (fun acc parentNode => accept parentNode acc) affected acc) /\
  collectAffectedNodes change (fun node acc => acc ++ [node]) w [] = affected /\
  length affected <= length (roots w).
Proof.
  intros Hc affected. split; [| split].
  - intros A accept acc. now apply collectAffectedNodes_structural_change.
  - rewrite (collectAffectedNodes_structural_change w change _ _ Hc).
    fold affected. generalize affected. intros l.
    assert (Hsnoc : forall (acc : list Node),
              fold_left (fun acc parentNode => acc ++ [parentNode]) l acc = acc ++ l).
    { induction l as [| x l IH]; intros acc; simpl.
      - now rewrite app_nil_r.
      - rewrite IH. now rewrite <- app_assoc. }
    apply (Hsnoc []).
  - unfold affected.
    etransitivity; [apply filter_no_longer |].
    rewrite getNodesByUri_in_root_order. apply omap_no_longer.
Qed.

(** *** [move] *)

(** X8. For a source without parent, or one that is not a workspace root
    node, [move] makes exactly one call, [super.move(source, target)], and
    settles as that call does. *)
Theorem move_delegates_once (st : State) source target :
  node_parent (world st) source = None \/ WorkspaceRootNode_is (world st) source = false ->
  move source target st =
    (of_settled (fst (super_move source target (world st))),
     {| world := snd (super_move source target (world st));
        root := root st;
        calls := calls st ++ [CallSuperMove source target] |}).
Proof.
  intros H. rewrite (move_delegates st source target H). unfold invoke.
  now destruct (super_move source target (world st)) as [r w'].
Qed.

(** *** [revealFile] *)

(** X11. [revealFile] at a workspace root: when the node found for a file
    URI is a workspace root node, nothing above it is looked at.  If the
    node is expanded it is returned and the state is as before; if it is
    collapsed, [expandNode] is called on it, once, and the node is returned
    unless that call throws; if the node is not expandable the result is
    [undefined]. *)
Theorem revealFile_at_workspace_root (u : URI) (n : Node) (st : State) :
  scheme u = "file" ->
  getNodeClosestToRootByUri (world st) (toString u) = Some n ->
  WorkspaceRootNode_is (world st) n = true ->
  revealFile u st =
    if ExpandableTreeNode_is (world st) n then
      if node_expanded (world st) n then (Resolved (Some n), st)
      else
        (match fst (expandNode n (world st)) with
         | Fulfilled _ => Resolved (Some n)
         | Failed e => Rejected e
         end,
         {| world := snd (expandNode n (world st));
            root := root st;
            calls := calls st ++ [CallExpandNode n] |})
    else (Resolved None, st).
Proof.
  intros Hs Hn Hr. unfold revealFile. simpl revealFile_fuel.
  rewrite revealFile_body_run, Hs, String.eqb_refl, Hn, Hr. simpl negb. cbv iota.
  destruct (ExpandableTreeNode_is (world st) n); [| reflexivity].
  destruct (node_expanded (world st) n) eqn:He; unfold bind.
  - now rewrite (expandIfCollapsed_expanded st n He).
  - rewrite (expandIfCollapsed_collapsed st n He). unfold invoke.
    destruct (expandNode n (world st)) as [[[] | e] w1]; reflexivity.
Qed.

(** X12. [revealFile] finds what the expansion of the parent has mounted:
    when the URI has no node yet and revealing its parent succeeds, the
    node is looked up again in the state the parent's reveal has left; if
    there is still none the result is [undefined], otherwise that node is
    expanded if it is a collapsed expandable node, and returned. *)
Theorem revealFile_after_parent (laws : UriLaws URI) (u : URI) (m : Node) (st st1 : State) :
  scheme u = "file" ->
  getNodeClosestToRootByUri (world st) (toString u) = None ->
  isRoot u = false ->
  revealFile (parent u) st = (Resolved (Some m), st1) ->
  revealFile u st =
    match getNodeClosestToRootByUri (world st1) (toString u) with
    | Some n =>
        if ExpandableTreeNode_is (world st1) n
        then bind (expandIfCollapsed n) (fun _ => ret (Some n)) st1
        else (Resolved (Some n), st1)
    | None => (Resolved None, st1)
    end.
Proof.
  intros Hs Hn Hroot Hparent.
  rewrite revealFile_unfold by exact laws.
  rewrite revealFile_body_run, Hs, String.eqb_refl, Hn. simpl negb. cbv iota.
  rewrite revealBelow_run, Hroot, Hparent.
  exact (revealAfterParent_run (toString u) None st1).
Qed.

End Model.

Import Toy MoreToy.

Lemma getNodeClosestToRootByUri_single_root_witness :
  getNodeClosestToRootByUri oneRoot "file:///ws/a" =
  getNode oneRoot (WorkspaceRootNode_createId "file:///ws" "file:///ws/a").
Proof.
  refine (getNodeClosestToRootByUri_single_root (FileStat := string)
            oneRoot "file:///ws/a" "file:///ws" _).
  reflexivity.
Defined.

Lemma collectAffectedNodes_invocations_witness :
  collectAffectedNodes ws_new_created (fun node acc => acc ++ [node]) oneRoot [] =
  List.filter (fun parentNode => DirNode_is oneRoot parentNode && node_expanded oneRoot parentNode)
    (getNodesByUri oneRoot (toString (parent (change_uri ws_new_created)))).
Proof.
  refine (proj1 (proj2 (collectAffectedNodes_invocations oneRoot ws_new_created _))).
  vm_compute; reflexivity.
Defined.

Lemma move_delegates_once_witness :
  move ws_f_id ws_a_id (start oneRoot) =
    (of_settled (fst (super_move ws_f_id ws_a_id oneRoot)),
     {| Navigator.world := snd (super_move ws_f_id ws_a_id oneRoot);
        root := None;
        calls := [CallSuperMove ws_f_id ws_a_id] |}).
Proof.
  apply (move_delegates_once (start oneRoot) ws_f_id ws_a_id).
  right. vm_compute; reflexivity.
Defined.

Lemma revealFile_at_workspace_root_witness :
  revealFile ws_uri (start collapsedRoot) =
    if ExpandableTreeNode_is collapsedRoot ws_id then
      if node_expanded collapsedRoot ws_id then (Resolved (Some ws_id), start collapsedRoot)
      else
        (match fst (expandNode ws_id collapsedRoot) with
         | Fulfilled _ => Resolved (Some ws_id)
         | Failed e => Rejected e
         end,
         {| Navigator.world := snd (expandNode ws_id collapsedRoot);
            root := None;
            calls := [CallExpandNode ws_id] |})
    else (Resolved None, start collapsedRoot).
Proof.
  apply (revealFile_at_workspace_root ws_uri ws_id (start collapsedRoot)).
  - reflexivity.
  - vm_compute; reflexivity.
  - vm_compute; reflexivity.
Defined.

Lemma revealFile_after_parent_witness :
  let st1 := snd (revealFile ws_a_uri (start oneRoot)) in
  revealFile ws_a_x_uri (start oneRoot) =
    match getNodeClosestToRootByUri (Navigator.world st1) (toString ws_a_x_uri) with
    | Some n =>
        if ExpandableTreeNode_is (Navigator.world st1) n
        then bind (expandIfCollapsed n) (fun _ => ret (Some n)) st1
        else (Resolved (Some n), st1)
    | None => (Resolved None, st1)
    end.
Proof.
  intros st1.
  apply (revealFile_after_parent pathUriLaws ws_a_x_uri ws_a_id (start oneRoot) st1).
  - reflexivity.
  - vm_compute; reflexivity.
  - reflexivity.
  - change (parent ws_a_x_uri) with ws_a_uri.
    rewrite (surjective_pairing (revealFile ws_a_uri (start oneRoot))).
    f_equal; vm_compute; reflexivity.
Defined.

(** The collapsed root is expanded, which mounts its file. *)
Example revealFile_expands_collapsed_root :
  let r := revealFile ws_f_uri (start collapsedRoot) in
  fst r = Resolved (Some ws_f_id) /\ calls (snd r) = [CallExpandNode ws_id].
Proof. split; vm_compute; reflexivity. Qed.

End NavigatorMore.

(** ** The tree iterators *)
Module IteratorFacts.

Import NavigatorIterators.

Section Model.
Context {W Node : Type} `{!NavigatorSearch W Node, !EqDecision Node}.

Lemma indexOf_lower (l : list Node) x : (-1 <= indexOf l x)%Z.
Proof.
  induction l as [| y l IH]; simpl; [lia |].
  destruct (decide (y = x)); [lia |].
  destruct (indexOf l x); lia.
Qed.

(** [indexOf] is -1 exactly for an element that is not in the array. *)
Lemma indexOf_absent (l : list Node) x : indexOf l x = (-1)%Z <-> x ∉ l.
Proof.
  induction l as [| y l IH]; simpl.
  - split; [intros _; apply not_elem_of_nil | reflexivity].
  - destruct (decide (y = x)) as [-> | Hne].
    + split; [discriminate | intros Hx; exfalso; apply Hx; apply list_elem_of_here].
    + pose proof (indexOf_lower l x) as Hlow.
      rewrite not_elem_of_cons.
      destruct (indexOf l x) as [| p | p] eqn:Hi.
      * split; [discriminate |]. intros [_ Hx]. apply IH in Hx. discriminate.
      * split; [lia |]. intros [_ Hx]. apply IH in Hx. discriminate.
      * split; [| reflexivity]. intros _. split; [congruence |].
        apply IH. lia.
Qed.

Lemma indexOf_test (l : list Node) x :
  (indexOf l x =? -1)%Z = bool_decide (x ∉ l).
Proof.
  destruct (Z.eqb_spec (indexOf l x) (-1)) as [He | Hne].
  - symmetry. apply bool_decide_eq_true_2. now apply indexOf_absent.
  - symmetry. apply bool_decide_eq_false_2. intros Hx. apply Hne. now apply indexOf_absent.
Qed.

(** X13. [createIterator] and [createBackwardIterator] always make the same
    kind of choice for a node.  Without a node both return [undefined].
    Without filtered nodes both hand over to the generic tree model.  With
    filtered nodes neither hands over: for a node among them both cycle
    from that node, the forward one over the filtered nodes and the
    backward one over the same nodes in reverse order; for a node that is
    not among them both return [undefined]. *)
Theorem iterators_agree (w : W) (node : option Node) :
  match createIterator w node, createBackwardIterator w node with
  | Undefined, Undefined =>
      node = None \/
      (filteredNodes w <> [] /\ exists n, node = Some n /\ n ∉ filteredNodes w)
  | SuperIterator n, SuperBackwardIterator n' =>
      node = Some n /\ n' = n /\ filteredNodes w = []
  | IteratorsCycle l s, IteratorsCycle l' s' =>
      node = Some s /\ s' = s /\ l = filteredNodes w /\ l' = rev l /\
      s ∈ l /\ s ∈ l'
  | _, _ => False
  end.
Proof.
  destruct node as [n |]; simpl; [| now left].
  destruct (filteredNodes w) as [| x l] eqn:Hf; simpl length.
  - simpl. auto.
  - change (S (length l) =? 0)%nat with false. cbv iota.
    rewrite indexOf_test.
    destruct (decide (n ∉ x :: l)) as [Hout | Hin].
    + rewrite bool_decide_eq_true_2 by assumption.
      right. split; [discriminate |]. now exists n.
    + rewrite bool_decide_eq_false_2 by assumption.
      assert (n ∈ x :: l) as Hmem.
      { destruct (decide (n ∈ x :: l)); [assumption | contradiction]. }
      repeat split; try assumption.
      apply list_elem_of_In, in_rev. rewrite rev_involutive.
      now apply list_elem_of_In.
Qed.

End Model.

Import MoreToy.

(** A filter of three nodes: from [b] the forward iterator cycles over
    [a; b; c], the backward one over [c; b; a]; [z] is not in the filter. *)
Example iterators_on_filter :
  @createIterator _ _ toySearch _ ["a"; "b"; "c"] (Some "b")
    = IteratorsCycle ["a"; "b"; "c"] "b" /\
  @createBackwardIterator _ _ toySearch _ ["a"; "b"; "c"] (Some "b")
    = IteratorsCycle ["c"; "b"; "a"] "b" /\
  @createIterator _ _ toySearch _ ["a"; "b"; "c"] (Some "z") = Undefined /\
  @createBackwardIterator _ _ toySearch _ [] (Some "z") = SuperBackwardIterator "z".
Proof. repeat split; reflexivity. Qed.

End IteratorFacts.

(** ** The quick-open contribution *)
Module QuickOpenFacts.

Import QuickOpen.

Section Model.
Context {W Contribution Registry : Type}.
Context `{!ContributionProvider W Contribution Registry}.

Lemma forEach_register_outcome : forall (cs : list Contribution) (st : St W Contribution),
  exists k,
    called (snd (forEach_register cs st)) = called st ++ take k cs /\
    match fst (forEach_register cs st) with
    | Fulfilled _ =>
        k = length cs /\ Registers (world st) cs (world (snd (forEach_register cs st)))
    | Failed e =>
        exists contrib w1,
          0 < k /\ cs !! (k - 1) = Some contrib /\
          Registers (world st) (take (k - 1) cs) w1 /\
          registerQuickOpenHandlers contrib quickOpenHandlerRegistry w1 =
            (Failed e, world (snd (forEach_register cs st)))
    end.
Proof.
  induction cs as [| c cs IH]; intros st; simpl.
  - exists 0. simpl. rewrite app_nil_r. split; [reflexivity |].
    split; [reflexivity | apply registers_none].
  - destruct (registerQuickOpenHandlers c quickOpenHandlerRegistry (world st))
      as [[[] | e] w1] eqn:Hc.
    + destruct (IH {| world := w1; called := called st ++ [c] |}) as (k & Hcalled & Hout).
      exists (S k). split.
      { rewrite Hcalled. simpl. now rewrite <- app_assoc. }
      destruct (fst (forEach_register cs _)) as [[] | e].
      * destruct Hout as [-> Hreg]. split; [reflexivity |].
        eapply registers_next; [exact Hc | exact Hreg].
      * destruct Hout as (contrib & w2 & Hk & Hlook & Hreg & Hfail).
        exists contrib, w2. split; [lia |].
        destruct k as [| k]; [lia |].
        simpl in *. rewrite Nat.sub_0_r in *.
        split; [exact Hlook |]. split; [| exact Hfail].
        eapply registers_next; [exact Hc | exact Hreg].
    + exists 1. simpl. split; [reflexivity |].
      exists c, (world st). split; [lia |]. split; [reflexivity |].
      split; [apply registers_none | exact Hc].
Qed.

(** X14. [onStart] calls the hooks of the contributions in the order the
    provider gives them and does not isolate a failure: if all hooks
    return, each contribution has been called once; if a hook throws,
    [onStart] throws the same error, the contributions before it have
    registered, and those after it are not called. *)
Theorem onStart_stops_at_first_failure (st : St W Contribution) :
  exists k,
    called (snd (onStart st)) = called st ++ take k (getContributions (world st)) /\
    match fst (onStart st) with
    | Fulfilled _ =>
        k = length (getContributions (world st)) /\
        Registers (world st) (getContributions (world st)) (world (snd (onStart st)))
    | Failed e =>
        exists contrib w1,
          0 < k /\ getContributions (world st) !! (k - 1) = Some contrib /\
          Registers (world st) (take (k - 1) (getContributions (world st))) w1 /\
          registerQuickOpenHandlers contrib quickOpenHandlerRegistry w1 =
            (Failed e, world (snd (onStart st)))
    end.
Proof. unfold onStart. apply forEach_register_outcome. Qed.

End Model.

Import MoreToy.

(** The second of three contributions throws: the first has registered,
    the third is never called. *)
Example onStart_bad_contribution :
  @onStart _ _ _ (toyContributions ["a"; "bad"; "c"]) quick_start =
    (Failed (Error "bad contribution"),
     {| world := ["a"]; called := ["a"; "bad"] |}).
Proof. reflexivity. Qed.

Example onStart_good_contributions :
  @onStart _ _ _ (toyContributions ["a"; "b"; "c"]) quick_start =
    (Fulfilled tt, {| world := ["a"; "b"; "c"]; called := ["a"; "b"; "c"] |}).
Proof. reflexivity. Qed.

End QuickOpenFacts.

(** ** The navigator with the roots awaited *)
Module NavigatorAsyncFacts.

Import Navigator NavigatorAsync AsyncFacts UriFacts NavigatorFacts.

Section Model.
Context {W FileStat Node C URI : Type}.
Context `{WR : !WorkspaceRoots W FileStat, TM : !TreeModel W Node,
          NT : !NavigatorTree W FileStat C, UA : !UriApi URI}.

Abbreviation State := (St W Node C).

(** *** [updateRoot] *)

Lemma createChildren_fails workspaceNode (st : State) rs e w' :
  CreationFails workspaceNode (world st) rs e w' ->
  createChildren rs workspaceNode st =
    (Rejected e, {| world := w'; root := root st; calls := calls st |}).
Proof.
  remember (world st) as w eqn:Hw. intros Hf. revert st Hw.
  induction Hf as [w r e w1 rest Hcall | w r child w1 rest e w' Hcall Hrest IH];
    intros st Hw; subst w; simpl; unfold bind at 1; unfold await; rewrite Hcall; simpl.
  - reflexivity.
  - unfold bind at 1.
    rewrite (IH {| world := w1; root := root st; calls := calls st |} eq_refl).
    reflexivity.
Qed.

(** The calls either all return or one of them throws. *)
Lemma creation_total (workspaceNode : WorkspaceNode C) : forall (rs : list FileStat) (w : W),
  (exists children w', CreatesChildren workspaceNode w rs children w') \/
  (exists e w', CreationFails workspaceNode w rs e w').
Proof.
  induction rs as [| r rs IH]; intros w.
  - left. exists [], w. apply creates_none.
  - destruct (createWorkspaceRoot r workspaceNode w) as [[child | e] w1] eqn:Hcall.
    + destruct (IH w1) as [(children & w' & Hc) | (e & w' & Hf)].
      * left. exists (child :: children), w'. eapply creates_next; eassumption.
      * right. exists e, w'. eapply creation_fails_later; eassumption.
    + right. exists e, w1. now apply creation_fails_here.
Qed.

Lemma await_roots_run (st : State) :
  await workspaceService_roots st =
    (of_settled (fst (workspaceService_roots (world st))),
     {| world := snd (workspaceService_roots (world st));
        root := root st; calls := calls st |}).
Proof. unfold await. now destruct (workspaceService_roots (world st)). Qed.

(** X9. [updateRoot] replaces the root in one step or not at all.  If
    awaiting [workspaceService.roots] rejects, or [createWorkspaceRoot]
    throws for one of the roots, [updateRoot] rejects with that error, the
    roots after the failing one are not visited, and the previous root
    stays in place.  If every call returns, the root is replaced: by
    [undefined] when there is no root, otherwise by a workspace node with
    the created nodes as children, in the order of the roots.  One of
    these cases always applies, and in none of them does [updateRoot] call
    into the tree model. *)
Theorem updateRoot_all_or_nothing (st : State) :
  (forall e w1,
     workspaceService_roots (world st) = (Failed e, w1) ->
     updateRoot st = (Rejected e, {| world := w1; root := root st; calls := calls st |})) /\
  (forall rs w1 e w',
     workspaceService_roots (world st) = (Fulfilled rs, w1) ->
     CreationFails (WorkspaceNode_createRoot []) w1 rs e w' ->
     updateRoot st = (Rejected e, {| world := w'; root := root st; calls := calls st |})) /\
  (forall rs w1 children w',
     workspaceService_roots (world st) = (Fulfilled rs, w1) ->
     CreatesChildren (WorkspaceNode_createRoot []) w1 rs children w' ->
     updateRoot st =
       (Resolved tt,
        {| world := w';
           root := match rs with
                   | [] => None
                   | _ :: _ => Some {| children := children |}
                   end;
           calls := calls st |})) /\
  ((exists e w1, workspaceService_roots (world st) = (Failed e, w1)) \/
   (exists rs w1,
      workspaceService_roots (world st) = (Fulfilled rs, w1) /\
      ((exists e w', CreationFails (WorkspaceNode_createRoot []) w1 rs e w') \/
       (exists children w', CreatesChildren (WorkspaceNode_createRoot []) w1 rs children w')))).
Proof.
  split; [| split; [| split]].
  - intros e w1 Hr. unfold updateRoot, createRoot.
    unfold bind at 1. unfold bind at 1. rewrite await_roots_run, Hr. reflexivity.
  - intros rs w1 e w' Hr Hf. unfold updateRoot, createRoot.
    unfold bind at 1. unfold bind at 1. rewrite await_roots_run, Hr. simpl.
    destruct rs as [| r rest]; [inversion Hf |].
    change (0 <? length (r :: rest))%nat with true. cbv iota.
    unfold bind at 1.
    now rewrite (createChildren_fails _
                   {| world := w1; root := root st; calls := calls st |} _ _ _ Hf).
  - intros rs w1 children w' Hr Hc. unfold updateRoot, createRoot.
    unfold bind at 1. unfold bind at 1. rewrite await_roots_run, Hr. simpl.
    destruct rs as [| r rest].
    + inversion Hc; subst. reflexivity.
    + change (0 <? length (r :: rest))%nat with true. cbv iota.
      unfold bind at 1.
      now rewrite (createChildren_fulfils _
                     {| world := w1; root := root st; calls := calls st |} _ _ _ Hc).
  - destruct (workspaceService_roots (world st)) as [[rs | e] w1] eqn:Hr.
    + right. exists rs, w1. split; [reflexivity |].
      destruct (creation_total (WorkspaceNode_createRoot []) rs w1) as [Hc | Hf]; auto.
    + left. now exists e, w1.
Qed.

(** *** [revealFile] *)

Lemma expansions_app (l1 l2 : list (Step Node)) :
  expansions (l1 ++ l2) = expansions l1 ++ expansions l2.
Proof.
  induction l1 as [| [| n] l1 IH]; simpl; [reflexivity | exact IH | now rewrite IH].
Qed.

Lemma awaits_app (l1 l2 : list (Step Node)) :
  awaits (l1 ++ l2) = awaits l1 + awaits l2.
Proof.
  induction l1 as [| [| n] l1 IH]; simpl; [reflexivity | now rewrite IH | exact IH].
Qed.

Lemma Steps_app (w w1 w2 : W) l1 l2 err :
  Steps w l1 None w1 -> Steps w1 l2 err w2 -> Steps w (l1 ++ l2) err w2.
Proof.
  intros H1 H2. remember (@None JsError) as none eqn:Hnone.
  induction H1 as [w | w rs w' steps err1 w1 Hr Hrest IH | w e w1 Hr
                  | n w w' steps err1 w1 Hn Hrest IH | n w e w1 Hn].
  - exact H2.
  - simpl. eapply steps_roots; [exact Hr |]. now apply IH.
  - discriminate.
  - simpl. eapply steps_expand; [exact Hn |]. now apply IH.
  - discriminate.
Qed.

Lemma runs_quiet {A} (m : Promise State A) :
  (forall st, exists a, m st = (Resolved a, st)) -> Runs m 0 0.
Proof.
  intros Hq st. destruct (Hq st) as [a Hm]. exists [], None. rewrite Hm. simpl.
  rewrite app_nil_r. repeat split; try lia. apply steps_none.
Qed.

Lemma runs_ret {A} (a : A) : Runs (ret (S := State) a) 0 0.
Proof. apply runs_quiet. intros st. now exists a. Qed.

Lemma runs_read {A} (f : W -> A) : Runs (read (C := C) f) 0 0.
Proof. apply runs_quiet. intros st. now exists (f (world st)). Qed.

Lemma runs_weaken {A} (m : Promise State A) a b a' b' :
  a <= a' -> b <= b' -> Runs m a b -> Runs m a' b'.
Proof.
  intros Ha Hb Hm st.
  destruct (Hm st) as (steps & err & Hc & Hr & Hs & Hna & Hnb & Hp & Hrej).
  exists steps, err. repeat split; try assumption; lia.
Qed.

Lemma runs_bind {A B} (m : Promise State A) (k : A -> Promise State B) a b a' b' :
  Runs m a b -> (forall x, Runs (k x) a' b') -> Runs (bind m k) (a + a') (b + b').
Proof.
  intros Hm Hk st.
  destruct (Hm st) as (s1 & e1 & Hc1 & Hr1 & Hs1 & Hna1 & Hnb1 & Hp1 & Hrej1).
  unfold bind. destruct (m st) as [[x | e |] st1]; simpl in *.
  - subst e1.
    destruct (Hk x st1) as (s2 & e2 & Hc2 & Hr2 & Hs2 & Hna2 & Hnb2 & Hp2 & Hrej2).
    exists (s1 ++ s2), e2. rewrite expansions_app, awaits_app, length_app.
    repeat split; try assumption; try lia.
    + rewrite Hc2, Hc1, map_app. now rewrite app_assoc.
    + congruence.
    + now apply (Steps_app _ (world st1)).
  - exists s1, e1. repeat split; try assumption; lia.
  - discriminate.
Qed.

Lemma runs_await_roots : Runs (await (C := C) (Node := Node) workspaceService_roots) 1 0.
Proof.
  intros st. rewrite await_roots_run.
  destruct (workspaceService_roots (world st)) as [[rs | e] w1] eqn:Hr; simpl.
  - exists [AwaitRoots], None. simpl. rewrite app_nil_r.
    repeat split; try lia.
    eapply steps_roots; [exact Hr | apply steps_none].
  - exists [AwaitRoots], (Some e). simpl. rewrite app_nil_r.
    repeat split; try lia. now apply steps_roots_rejected.
Qed.

Lemma runs_expandNode n :
  Runs (invoke (C := C) (CallExpandNode n) (expandNode n)) 0 1.
Proof.
  intros st. unfold invoke.
  destruct (expandNode n (world st)) as [[[] | e] w1] eqn:Hx; simpl.
  - exists [ExpandNode n], None. simpl. repeat split; try lia.
    eapply steps_expand; [exact Hx | apply steps_none].
  - exists [ExpandNode n], (Some e). simpl. repeat split; try lia.
    now apply steps_expand_throws.
Qed.

Lemma runs_expandIfCollapsed n : Runs (expandIfCollapsed (C := C) n) 0 1.
Proof.
  unfold expandIfCollapsed.
  apply (runs_bind _ _ 0 0 0 1); [apply runs_read |].
  intros w. destruct (negb (node_expanded w n)).
  - apply runs_expandNode.
  - apply (runs_weaken _ 0 0); [lia | lia | apply runs_ret].
Qed.

Lemma runs_getNodesByUri nodeUri : Runs (getNodesByUri (C := C) nodeUri) 1 0.
Proof.
  unfold getNodesByUri.
  apply (runs_bind _ _ 1 0 0 0); [apply runs_await_roots |]. intros rs.
  apply (runs_bind _ _ 0 0 0 0); [apply runs_read |]. intros w.
  apply runs_ret.
Qed.

Lemma runs_getNodeClosestToRootByUri uri :
  Runs (getNodeClosestToRootByUri (C := C) uri) 1 0.
Proof.
  unfold getNodeClosestToRootByUri.
  apply (runs_bind _ _ 1 0 0 0); [apply runs_getNodesByUri |]. intros nodes.
  apply runs_ret.
Qed.

Lemma runs_revealAfterParent navigatorNodeId node :
  Runs (revealAfterParent (C := C) navigatorNodeId node) 1 1.
Proof.
  unfold revealAfterParent.
  apply (runs_bind _ _ 1 0 0 1).
  { destruct node.
    - apply (runs_weaken _ 0 0); [lia | lia | apply runs_ret].
    - apply runs_getNodeClosestToRootByUri. }
  intros [n |].
  - apply (runs_bind _ _ 0 0 0 1); [apply runs_read |]. intros w.
    apply (runs_bind _ _ 0 1 0 0).
    + destruct (ExpandableTreeNode_is w n).
      * apply runs_expandIfCollapsed.
      * apply (runs_weaken _ 0 0); [lia | lia | apply runs_ret].
    + intros _. apply runs_ret.
  - apply (runs_weaken _ 0 0); [lia | lia | apply runs_ret].
Qed.

Lemma runs_revealBelow (self : URI -> Promise State (option Node)) u node a b :
  (isRoot u = false -> Runs (self (parent u)) a b) ->
  Runs (revealBelow self u node) (a + 1) (b + 1).
Proof.
  intros Hself. unfold revealBelow. destruct (isRoot u).
  - apply (runs_weaken _ 0 0); [lia | lia | apply runs_ret].
  - apply runs_bind; [now apply Hself |].
    intros [m |].
    + apply runs_revealAfterParent.
    + apply (runs_weaken _ 0 0); [lia | lia | apply runs_ret].
Qed.

Lemma runs_revealFile_body (self : URI -> Promise State (option Node)) u a b :
  (isRoot u = false -> Runs (self (parent u)) a b) ->
  Runs (revealFile_body self u) (2 + a) (1 + b).
Proof.
  intros Hself. unfold revealFile_body.
  destruct (negb (String.eqb (scheme u) "file")).
  { apply (runs_weaken _ 0 0); [lia | lia | apply runs_ret]. }
  apply (runs_bind _ _ 1 0 (1 + a) (1 + b)); [apply runs_getNodeClosestToRootByUri |].
  intros node.
  apply (runs_bind _ _ 0 0 (1 + a) (1 + b)); [apply runs_read |].
  intros w.
  assert (Hbelow : Runs (revealBelow self u node) (1 + a) (1 + b)).
  { apply (runs_weaken _ (a + 1) (b + 1)); [lia | lia |]. now apply runs_revealBelow. }
  destruct node as [n |]; [| exact Hbelow].
  destruct (WorkspaceRootNode_is w n); [| exact Hbelow].
  destruct (ExpandableTreeNode_is w n).
  - apply (runs_weaken _ (0 + 0) (1 + 0)); [lia | lia |].
    apply runs_bind; [apply runs_expandIfCollapsed |].
    intros _. apply runs_ret.
  - apply (runs_weaken _ 0 0); [lia | lia | apply runs_ret].
Qed.

Lemma runs_revealFile_fuel (laws : UriLaws URI) : forall fuel (u : URI),
  segments u < fuel -> Runs (revealFile_fuel (C := C) fuel u) (2 * fuel) fuel.
Proof.
  induction fuel as [| fuel IH]; intros u Hf; [lia |]. simpl revealFile_fuel.
  apply (runs_weaken _ (2 + 2 * fuel) (1 + fuel)); [lia | lia |].
  apply runs_revealFile_body. intros Hroot.
  apply IH. pose proof (parent_shortens u Hroot). lia.
Qed.

(** X10. All [revealFile] does is to await the roots of the workspace and
    to expand nodes, one step after the other: at most one expansion and
    two awaits for the URI and for each of its path segments.  The
    expansions are the calls it makes into the tree model ([super.move] is
    never called), the world changes only through these steps, and
    [this.root] is not touched.  It settles; it stops at the first step
    that throws and rejects with that error, and it rejects in no other
    case. *)
Theorem revealFile_only_awaits_and_expands (laws : UriLaws URI) (u : URI) (st : State) :
  exists steps err,
    calls (snd (revealFile u st)) = calls st ++ map CallExpandNode (expansions steps) /\
    root (snd (revealFile u st)) = root st /\
    Steps (world st) steps err (world (snd (revealFile u st))) /\
    awaits steps <= 2 * S (segments u) /\
    length (expansions steps) <= S (segments u) /\
    is_pending (fst (revealFile u st)) = false /\
    rejection (fst (revealFile u st)) = err.
Proof.
  unfold revealFile.
  apply (runs_revealFile_fuel laws (S (segments u)) u). lia.
Qed.

End Model.

(** *** The two embeddings agree when the roots are delivered *)
Section Delivered.
Context {W FileStat Node C URI : Type}.
Context `{WS : !WorkspaceService W FileStat, WR : !WorkspaceRoots W FileStat,
          TM : !TreeModel W Node, NT : !NavigatorTree W FileStat C, UA : !UriApi URI}.

Lemma getNodesByUri_delivered nodeUri (st : St W Node C) :
  (forall w : W, workspaceService_roots w = (Fulfilled (roots w), w)) ->
  (forall r : FileStat, root_uri r = stat_uri r) ->
  NavigatorAsync.getNodesByUri nodeUri st =
  (Resolved (Navigator.getNodesByUri (world st) nodeUri), st).
Proof.
  intros roots_delivered same_uri.
  unfold NavigatorAsync.getNodesByUri. unfold bind at 1.
  rewrite await_roots_run, roots_delivered. simpl.
  unfold bind, read, ret. simpl. destruct st as [w r c]. simpl.
  assert (Hmap :
    map (fun root => WorkspaceRootNode_createId (root_uri root) nodeUri) (roots w) =
    map (fun root => WorkspaceRootNode_createId (stat_uri root) nodeUri) (roots w)).
  { apply map_ext. intros root. now rewrite same_uri. }
  unfold Navigator.getNodesByUri. now rewrite Hmap.
Qed.

Lemma getNodeClosestToRootByUri_delivered uri (st : St W Node C) :
  (forall w : W, workspaceService_roots w = (Fulfilled (roots w), w)) ->
  (forall r : FileStat, root_uri r = stat_uri r) ->
  NavigatorAsync.getNodeClosestToRootByUri uri st =
  (Resolved (Navigator.getNodeClosestToRootByUri (world st) uri), st).
Proof.
  intros roots_delivered same_uri.
  unfold NavigatorAsync.getNodeClosestToRootByUri. unfold bind.
  now rewrite getNodesByUri_delivered.
Qed.

Lemma revealAfterParent_delivered navigatorNodeId node (st : St W Node C) :
  (forall w : W, workspaceService_roots w = (Fulfilled (roots w), w)) ->
  (forall r : FileStat, root_uri r = stat_uri r) ->
  NavigatorAsync.revealAfterParent navigatorNodeId node st =
  Navigator.revealAfterParent navigatorNodeId node st.
Proof.
  intros roots_delivered same_uri.
  unfold NavigatorAsync.revealAfterParent, Navigator.revealAfterParent.
  destruct node as [n |]; [reflexivity |].
  unfold bind at 1. rewrite getNodeClosestToRootByUri_delivered by assumption.
  unfold bind at 2. reflexivity.
Qed.

Lemma revealFile_body_delivered (self1 self2 : URI -> Promise (St W Node C) (option Node)) u :
  (forall w : W, workspaceService_roots w = (Fulfilled (roots w), w)) ->
  (forall r : FileStat, root_uri r = stat_uri r) ->
  (forall st, self1 (parent u) st = self2 (parent u) st) ->
  forall st, NavigatorAsync.revealFile_body self1 u st = Navigator.revealFile_body self2 u st.
Proof.
  intros roots_delivered same_uri Hself st. rewrite revealFile_body_run.
  unfold NavigatorAsync.revealFile_body.
  destruct (negb (String.eqb (scheme u) "file")); [reflexivity |].
  unfold bind at 1. rewrite getNodeClosestToRootByUri_delivered by assumption.
  unfold bind at 1. unfold read at 1. cbv beta iota.
  assert (Hbelow : forall node,
            NavigatorAsync.revealBelow self1 u node st = Navigator.revealBelow self2 u node st).
  { intros node. rewrite revealBelow_run. unfold NavigatorAsync.revealBelow.
    destruct (isRoot u); [reflexivity |].
    unfold bind. rewrite Hself.
    destruct (self2 (parent u) st) as [[[m |] | e |] st1]; try reflexivity.
    now apply revealAfterParent_delivered. }
  destruct (Navigator.getNodeClosestToRootByUri (world st) (toString u)) as [n |];
    [| apply Hbelow].
  destruct (WorkspaceRootNode_is (world st) n); [| apply Hbelow].
  destruct (ExpandableTreeNode_is (world st) n); reflexivity.
Qed.

(** With the roots delivered, [revealFile] and [updateRoot] with the
    roots awaited are the [revealFile] and [updateRoot] above. *)
Lemma revealFile_delivered (u : URI) (st : St W Node C) :
  (forall w : W, workspaceService_roots w = (Fulfilled (roots w), w)) ->
  (forall r : FileStat, root_uri r = stat_uri r) ->
  NavigatorAsync.revealFile u st = Navigator.revealFile u st.
Proof.
  intros roots_delivered same_uri.
  unfold NavigatorAsync.revealFile, Navigator.revealFile.
  generalize (S (segments u)) as fuel. intros fuel. revert u st.
  induction fuel as [| fuel IH]; intros u st; [reflexivity |]. simpl.
  apply revealFile_body_delivered; try assumption. intros st'. apply IH.
Qed.

Lemma updateRoot_delivered (st : St W Node C) :
  (forall w : W, workspaceService_roots w = (Fulfilled (roots w), w)) ->
  NavigatorAsync.updateRoot st = Navigator.updateRoot st.
Proof.
  intros roots_delivered.
  unfold NavigatorAsync.updateRoot, Navigator.updateRoot,
    NavigatorAsync.createRoot, Navigator.createRoot.
  unfold bind at 1 3. unfold bind at 1 2.
  rewrite await_roots_run, roots_delivered. unfold read. simpl.
  now destruct st.
Qed.

End Delivered.

Import Toy MoreToy.

Lemma updateRoot_all_or_nothing_witness :
  updateRoot (NT := fragileTree) (rooted goneRoot) =
    (Rejected (Error "no such folder"), rooted goneRoot).
Proof.
  refine (proj1 (proj2 (updateRoot_all_or_nothing (NT := fragileTree) (rooted goneRoot)))
            ["file:///a"; "file:///gone"; "file:///b"] goneRoot
            (Error "no such folder") goneRoot _ _).
  - reflexivity.
  - apply (creation_fails_later (NavigatorTree0 := fragileTree) _ goneRoot "file:///a"
             (toy_createId "file:///a" "file:///a") goneRoot); [reflexivity |].
    apply creation_fails_here. reflexivity.
Defined.

Lemma revealFile_only_awaits_and_expands_witness :
  exists steps err,
    calls (snd (revealFile ws_a_x_uri (start oneRoot))) =
      [] ++ map CallExpandNode (expansions steps) /\
    root (snd (revealFile ws_a_x_uri (start oneRoot))) = None /\
    Steps oneRoot steps err (Navigator.world (snd (revealFile ws_a_x_uri (start oneRoot)))) /\
    awaits steps <= 8 /\
    length (expansions steps) <= 4 /\
    is_pending (fst (revealFile ws_a_x_uri (start oneRoot))) = false /\
    rejection (fst (revealFile ws_a_x_uri (start oneRoot))) = err.
Proof.
  exact (revealFile_only_awaits_and_expands pathUriLaws ws_a_x_uri (start oneRoot)).
Defined.

(** An unreachable workspace: [updateRoot] and [revealFile] reject, the
    root stays, nothing is expanded. *)
Example unreachable_workspace :
  updateRoot (rooted unreachableWorkspace) =
    (Rejected (Error "workspace unreachable"), rooted unreachableWorkspace) /\
  revealFile ws_a_uri (start unreachableWorkspace) =
    (Rejected (Error "workspace unreachable"), start unreachableWorkspace).
Proof. split; reflexivity. Qed.

(** The reveal of [file:///ws/a/x.txt] in [oneRoot]: what it returns and
    the one expansion it makes. *)
Example revealFile_awaited_mounts :
  fst (revealFile ws_a_x_uri (start oneRoot)) = Resolved (Some ws_a_x_id) /\
  calls (snd (revealFile ws_a_x_uri (start oneRoot))) = [CallExpandNode ws_a_id].
Proof. split; vm_compute; reflexivity. Qed.

End NavigatorAsyncFacts.
